(** * Situation Monitor: the news classifier and the analysis module

    A shallow embedding of the TypeScript classes [NewsModule] and
    [AnalysisModule] (src/modules/news/types.ts).

    Conventions of the embedding.
    - A JavaScript string is a [string]: a sequence of code units, here
      restricted to the Latin-1 range (one [ascii] per code unit).
    - A JavaScript [number] that holds a real quantity (a threshold, a ratio,
      a score) is a binary64 [float]; Rocq's primitive floats follow the same
      IEEE 754 arithmetic (round to nearest, ties to even) as JavaScript.
      A number that only ever holds a count or a length is a [nat].
    - A JavaScript array that is shared between objects lives in a heap and
      is named by a reference, so that aliasing is visible.
    - [new Date()] and [Math.random()] read from oracles; the module state
      counts how many readings were taken. *)

From Stdlib Require Import ZArith QArith Qround Floats Uint63 Ascii String.
From Stdlib Require Import DecimalString Lia Sorted.
From stdpp Require Import base option list gmap strings.

#[local] Close Scope Q_scope.

#[local] Set Warnings "-inexact-float".
#[local] Set Warnings "-clear-no-such-hyp".
#[local] Open Scope Z_scope.
#[local] Open Scope nat_scope.

(** ** JavaScript strings *)

Module JsString.

(** [String.prototype.toLowerCase] on one Latin-1 code unit: A-Z and the
    accented capitals (except the multiplication sign, 215) move up by 32. *)
Definition lowerChar (c : ascii) : ascii :=
  let n := nat_of_ascii c in
  if ((65 <=? n) && (n <=? 90))
     || ((192 <=? n) && (n <=? 222) && negb (n =? 215))
  then ascii_of_nat (n + 32) else c.

Fixpoint toLowerCase (s : string) : string :=
  match s with
  | EmptyString => EmptyString
  | String c r => String (lowerChar c) (toLowerCase r)
  end.

(** [text.includes(q)]: [q] occurs in [text] as a contiguous substring. *)
Fixpoint includes (text q : string) : bool :=
  if String.prefix q text then true
  else match text with
       | EmptyString => false
       | String _ r => includes r q
       end.

(** [s || d] for an optional string: the default replaces [undefined] and
    the empty string, the two falsy cases. *)
Definition orElse (s : option string) (d : string) : string :=
  match s with
  | Some (String c r) => String c r
  | _ => d
  end.

(** The truthiness test [if (s)] on an optional string. *)
Definition truthy (s : option string) : bool :=
  match s with
  | Some (String _ _) => true
  | _ => false
  end.

(** The double quote character, as a one-character string. *)
Definition quote : string := String (ascii_of_nat 34) EmptyString.

(** Template literal of a non-negative integer. *)
Definition ofNat (n : nat) : string := NilZero.string_of_uint (Nat.to_uint n).

(** JavaScript white space within Latin-1: tab, line feed, vertical tab,
    form feed, carriage return, space and the no-break space. *)
Definition isSpace (c : ascii) : bool :=
  let n := nat_of_ascii c in
  ((9 <=? n) && (n <=? 13)) || (n =? 32) || (n =? 160).

(** [.replace(/\s+/g, ' ')]: every maximal run of white space becomes one
    space. [inRun] tells that the previous code unit was white space. *)
Fixpoint collapseSpaces (inRun : bool) (s : string) : string :=
  match s with
  | EmptyString => EmptyString
  | String c r =>
      if isSpace c
      then (if inRun then collapseSpaces true r
            else String " "%char (collapseSpaces true r))
      else String c (collapseSpaces false r)
  end.

(** [.replace(/[^\x00-\x7F]/g, '')]. *)
Fixpoint stripNonAscii (s : string) : string :=
  match s with
  | EmptyString => EmptyString
  | String c r =>
      if nat_of_ascii c <=? 127 then String c (stripNonAscii r)
      else stripNonAscii r
  end.

Fixpoint trimStart (s : string) : string :=
  match s with
  | String c r => if isSpace c then trimStart r else s
  | EmptyString => EmptyString
  end.

Fixpoint rev (acc s : string) : string :=
  match s with
  | EmptyString => acc
  | String c r => rev (String c acc) r
  end.

Definition trim (s : string) : string :=
  rev EmptyString (trimStart (rev EmptyString (trimStart s))).

End JsString.

Import JsString.

(** ** Data model *)

(** Milliseconds since the epoch, as [Date.getTime()] reports them. *)
Definition Date := Z.

(** [AlertLevel] of the news types. [NewsModule] narrows the type of
    [NewsItem.alertLevel] to the first four values. *)
Inductive AlertLevel := none | low | medium | high | critical.

#[global] Instance AlertLevel_eq_dec : EqDecision AlertLevel.
Proof. solve_decision. Defined.

(** References to arrays of strings, and the heap that holds the arrays. *)
Definition Ref := nat.

Module Heap.

Definition read (h : gmap nat (list string)) (r : Ref) : list string :=
  default [] (h !! r).

(** A new array literal: a reference that no object holds yet. *)
Definition alloc (h : gmap nat (list string)) (v : list string)
  : Ref * gmap nat (list string) :=
  let r := fresh (dom h) in (r, <[r := v]> h).

(** [array.push(x)] through the reference [r]. *)
Definition push (h : gmap nat (list string)) (r : Ref) (x : string)
  : gmap nat (list string) :=
  <[r := read h r ++ [x]]> h.

End Heap.

(** The item handed over by the RSS parser (the fields the module reads). *)
Record RssItem := {
  rss_title : option string;
  rss_link : option string;
  rss_content : option string;
  rss_contentSnippet : option string;
}.

(** [NewsItem] as [NewsModule] declares it. [keywords] is a reference: the
    array is shared with whoever else holds the item. *)
Module NewsItem.
Record t := {
  id : string;
  title : string;
  description : string;
  content : option string;
  url : string;
  source : string;
  category : string;
  publishedAt : Date;
  region : option string;
  keywords : Ref;
  alertLevel : AlertLevel;
}.
End NewsItem.

(** ** NewsModule: the classifier *)

Module NewsModule.

(** The early-returning loop
    [for (const keyword of kws) if (text.includes(keyword)) return ...]:
    does some keyword of the list occur in the text? *)
Fixpoint anyIncluded (text : string) (kws : list string) : bool :=
  match kws with
  | [] => false
  | keyword :: rest =>
      if includes text keyword then true else anyIncluded text rest
  end.

(** The loop [for (const keyword of kws) if (text.includes(keyword))
    keywords.push(keyword)] of [extractKeywords]. *)
Fixpoint collectIncluded (text : string) (kws : list string) : list string :=
  match kws with
  | [] => []
  | keyword :: rest =>
      if includes text keyword then keyword :: collectIncluded text rest
      else collectIncluded text rest
  end.

Definition commonKeywords : list string :=
  ["crisis"; "attack"; "emergency"; "alert"; "warning"; "breakthrough";
   "discovery"; "deal"; "agreement"].

Definition extractKeywords (item : RssItem) : list string :=
  let text :=
    toLowerCase (orElse (rss_title item) EmptyString +:+ " " +:+
                 orElse (rss_contentSnippet item) EmptyString +:+ " " +:+
                 orElse (rss_content item) EmptyString) in
  collectIncluded text commonKeywords.

Definition highAlertKeywords : list string :=
  ["crisis"; "attack"; "emergency"; "disaster"; "war"].
Definition mediumAlertKeywords : list string :=
  ["warning"; "alert"; "danger"; "threat"].
Definition lowAlertKeywords : list string :=
  ["concern"; "issue"; "problem"; "challenge"].

(** The text [detectAlertLevel] scans. *)
Definition alertText (item : RssItem) : string :=
  toLowerCase (orElse (rss_title item) EmptyString +:+ " " +:+
               orElse (rss_contentSnippet item) EmptyString).

Definition detectAlertLevel (item : RssItem) : AlertLevel :=
  let text := alertText item in
  if anyIncluded text highAlertKeywords then high
  else if anyIncluded text mediumAlertKeywords then medium
  else if anyIncluded text lowAlertKeywords then low
  else none.

(** The tiers in the order [detectAlertLevel] visits them. *)
Definition alertTiers : list (AlertLevel * list string) :=
  [(high, highAlertKeywords); (medium, mediumAlertKeywords);
   (low, lowAlertKeywords)].

(** [Object.entries(regions)] of [detectRegion], in insertion order. *)
Definition regions : list (string * list string) :=
  [("north america", ["usa"; "us"; "united states"; "canada"; "mexico"]);
   ("europe", ["europe"; "eu"; "uk"; "germany"; "france"; "italy"; "spain"]);
   ("asia", ["china"; "japan"; "india"; "korea"; "asia"]);
   ("middle east", ["middle east"; "israel"; "iran"; "saudi"; "uae"]);
   ("south america", ["brazil"; "argentina"; "chile"; "south america"]);
   ("africa", ["africa"; "south africa"; "nigeria"; "egypt"])].

Fixpoint firstRegion (text : string) (rs : list (string * list string))
  : option string :=
  match rs with
  | [] => None
  | (region, kws) :: rest =>
      if anyIncluded text (map toLowerCase kws) then Some region
      else firstRegion text rest
  end.

Definition detectRegion (title description : string) : option string :=
  firstRegion (toLowerCase (title +:+ " " +:+ description)) regions.

(** The title and the description [fetchFromRSS] gives a news item. *)
Definition titleOf (item : RssItem) : string :=
  orElse (rss_title item) "No title".
Definition descriptionOf (item : RssItem) : string :=
  orElse (rss_contentSnippet item) (orElse (rss_content item) "No description").

(** The body of the inner loop of [fetchFromRSS]: one parsed item becomes
    a [NewsItem]. The item id ([generateId], a base64 digest of the link or
    the title) and the publication date come from the caller; the keyword
    array is a new array. *)
Definition toNewsItem (feedName feedCategory : string) (newId : string)
    (pubDate : Date) (item : RssItem) (h : gmap nat (list string))
  : NewsItem.t * gmap nat (list string) :=
  let (kw, h') := Heap.alloc h (extractKeywords item) in
  ({| NewsItem.id := newId;
      NewsItem.title := titleOf item;
      NewsItem.description := descriptionOf item;
      NewsItem.content := rss_content item;
      NewsItem.url := orElse (rss_link item) "#";
      NewsItem.source := feedName;
      NewsItem.category := feedCategory;
      NewsItem.publishedAt := pubDate;
      NewsItem.region := detectRegion (titleOf item) (descriptionOf item);
      NewsItem.keywords := kw;
      NewsItem.alertLevel := detectAlertLevel item |}, h').

Definition cleanText (text : string) : string :=
  trim (stripNonAscii (collapseSpaces false text)).

(** [Array.prototype.includes] on an array of strings. *)
Definition arrayIncludes (a : list string) (x : string) : bool :=
  bool_decide (x ∈ a).

(** [[...new Set(a)]]: the first occurrence of every element, in order. *)
Fixpoint uniqueFrom (seen a : list string) : list string :=
  match a with
  | [] => []
  | x :: r =>
      if arrayIncludes seen x then uniqueFrom seen r
      else x :: uniqueFrom (x :: seen) r
  end.
Definition unique (a : list string) : list string := uniqueFrom [] a.

(** [enhanceKeywords]: [existingKeywords] IS the item's array, so both
    [push] calls write through [NewsItem.keywords item]; only the returned
    array is new. *)
Definition enhanceKeywords (item : NewsItem.t) (h : gmap nat (list string))
  : Ref * gmap nat (list string) :=
  let existingKeywords := NewsItem.keywords item in
  let h1 :=
    if arrayIncludes (Heap.read h existingKeywords) (NewsItem.category item)
    then h else Heap.push h existingKeywords (NewsItem.category item) in
  let h2 := match NewsItem.region item with
            | Some (String c r) =>
                if arrayIncludes (Heap.read h1 existingKeywords) (String c r)
                then h1 else Heap.push h1 existingKeywords (String c r)
            | _ => h1
            end in
  Heap.alloc h2 (unique (Heap.read h2 existingKeywords)).

(** One step of the [map] in [processNewsItems]: a new object that spreads
    the old one and replaces three fields. *)
Definition processNewsItem (item : NewsItem.t) (h : gmap nat (list string))
  : NewsItem.t * gmap nat (list string) :=
  let (kw, h') := enhanceKeywords item h in
  ({| NewsItem.id := NewsItem.id item;
      NewsItem.title := cleanText (NewsItem.title item);
      NewsItem.description := cleanText (NewsItem.description item);
      NewsItem.content := NewsItem.content item;
      NewsItem.url := NewsItem.url item;
      NewsItem.source := NewsItem.source item;
      NewsItem.category := NewsItem.category item;
      NewsItem.publishedAt := NewsItem.publishedAt item;
      NewsItem.region := NewsItem.region item;
      NewsItem.keywords := kw;
      NewsItem.alertLevel := NewsItem.alertLevel item |}, h').

Fixpoint processNewsItems (items : list NewsItem.t) (h : gmap nat (list string))
  : list NewsItem.t * gmap nat (list string) :=
  match items with
  | [] => ([], h)
  | item :: rest =>
      let (item', h1) := processNewsItem item h in
      let (rest', h2) := processNewsItems rest h1 in
      (item' :: rest', h2)
  end.

End NewsModule.

(** The table [ALERT_KEYWORDS] of the news types. *)
Definition ALERT_KEYWORDS (level : AlertLevel) : list string :=
  match level with
  | critical =>
      ["war"; "attack"; "terror"; "crisis"; "emergency"; "disaster";
       "explosion"; "shooting"; "hostage"; "invasion"; "nuclear";
       "biological"; "chemical"; "pandemic"; "epidemic"]
  | high =>
      ["conflict"; "violence"; "protest"; "riot"; "strike"; "sanction";
       "embargo"; "default"; "bankruptcy"; "crash"; "collapse";
       "hack"; "breach"; "leak"; "outage"; "blackout"]
  | medium =>
      ["warning"; "alert"; "danger"; "threat"; "risk"; "concern";
       "investigation"; "inquiry"; "hearing"; "lawsuit"; "fine";
       "suspension"; "delay"; "cancellation"; "recall"]
  | low =>
      ["issue"; "problem"; "challenge"; "difficulty"; "setback";
       "decline"; "drop"; "fall"; "slowdown"; "weakness";
       "uncertainty"; "volatility"; "fluctuation"]
  | none => []
  end.

(** ** JavaScript numbers *)

Module JsNumber.

(** A count or a length read as a number (exact below 2^53, and the length
    of an array is below 2^32). *)
Definition ofNat (n : nat) : float :=
  PrimFloat.of_uint63 (Uint63.of_Z (Z.of_nat n)).

Definition ofZ (z : Z) : float :=
  if (z <? 0)%Z then PrimFloat.opp (PrimFloat.of_uint63 (Uint63.of_Z (- z)))
  else PrimFloat.of_uint63 (Uint63.of_Z z).

(** [Math.round]: the integer nearest to [x], a tie going towards
    +infinity; NaN, the infinities, the zeros and every value that is
    already integral are returned as they are. For [x = v * 2^e] with
    [e < 0] the result is [floor (x + 1/2)], computed exactly. *)
Definition round (x : float) : float :=
  match Prim2SF x with
  | S754_finite s m e =>
      if (0 <=? e)%Z then x
      else
        let v := if s then Z.neg m else Z.pos m in
        let q := ((2 * v + 2 ^ (- e)) / 2 ^ (1 - e))%Z in
        if (q =? 0)%Z
        then (if s then PrimFloat.opp PrimFloat.zero else PrimFloat.zero)
        else ofZ q
  | _ => x
  end.

(** [Math.min] of two numbers: NaN if either is NaN, and -0 below +0. *)
Definition min (a b : float) : float :=
  if PrimFloat.is_nan a || PrimFloat.is_nan b then PrimFloat.nan
  else if PrimFloat.ltb a b then a
  else if PrimFloat.ltb b a then b
  else if PrimFloat.eqb a PrimFloat.zero
       then (if PrimFloat.ltb (PrimFloat.div PrimFloat.one a) PrimFloat.zero
             then a else b)
       else a.

(** [a >= b]. *)
Definition geb (a b : float) : bool := PrimFloat.leb b a.

End JsNumber.

(** ** Monitors and alerts *)

Module Monitor.
Record t := {
  id : string;
  query : string;
  createdAt : Date;
  lastChecked : Date;
  isActive : bool;
  alertThreshold : float;
  checkInterval : Z;
  alertCount : nat;
}.
End Monitor.

Module Alert.
Record t := {
  id : string;
  monitorId : option string;
  query : option string;
  severity : AlertLevel;
  message : string;
  details : option string;
  timestamp : Date;
  acknowledged : bool;
  acknowledgedAt : option Date;
  acknowledgedBy : option string;
}.
End Alert.

(** What the surroundings supply: the [n]-th reading of the clock
    ([new Date()]) and the [n]-th value of [Math.random().toString(36)]. *)
Record Oracle := {
  clock : nat -> Date;
  random : nat -> string;
}.

(** The monitor registry inside [AnalysisModule]: the monitor list, the
    alert log, and how many clock readings and random draws were taken. *)
Record Registry := {
  activeMonitors : list Monitor.t;
  alerts : list Alert.t;
  ticks : nat;
  draws : nat;
}.

(** Methods of the module are state transformers over the registry. *)
Definition Method (A : Type) : Type := Registry -> A * Registry.

Definition ret {A} (a : A) : Method A := fun s => (a, s).
Definition bind {A B} (c : Method A) (k : A -> Method B) : Method B :=
  fun s => let (a, s') := c s in k a s'.

Notation "x <~ c ;; k" := (bind c (fun x => k))
  (at level 100, c at next level, right associativity).
Notation "c ;;; k" := (bind c (fun _ => k))
  (at level 100, right associativity).

Module AnalysisModule.

Section WithOracle.

Variable env : Oracle.

(** [new Date()]. *)
Definition newDate : Method Date :=
  fun s => (clock env (ticks s),
            {| activeMonitors := activeMonitors s; alerts := alerts s;
               ticks := S (ticks s); draws := draws s |}).

(** [Math.random().toString(36).substring(2, 10)]. *)
Definition generateId : Method string :=
  fun s => (String.substring 2 8 (random env (draws s)),
            {| activeMonitors := activeMonitors s; alerts := alerts s;
               ticks := ticks s; draws := S (draws s) |}).

Definition getMonitors : Method (list Monitor.t) :=
  fun s => (activeMonitors s, s).

Definition setMonitors (ms : list Monitor.t) : Method unit :=
  fun s => (tt, {| activeMonitors := ms; alerts := alerts s;
                   ticks := ticks s; draws := draws s |}).

(** [this.alerts.push(alert)]. *)
Definition pushAlert (a : Alert.t) : Method unit :=
  fun s => (tt, {| activeMonitors := activeMonitors s;
                   alerts := alerts s ++ [a];
                   ticks := ticks s; draws := draws s |}).

(** [saveMonitors] only logs: storage is not implemented. *)
Definition saveMonitors : Method unit := ret tt.

Definition addMonitor (query : string) : Method string :=
  newId <~ generateId ;;
  created <~ newDate ;;
  checked <~ newDate ;;
  let monitor := {| Monitor.id := newId; Monitor.query := query;
                    Monitor.createdAt := created;
                    Monitor.lastChecked := checked;
                    Monitor.isActive := true;
                    Monitor.alertThreshold := 0.7%float;
                    Monitor.checkInterval := 3600%Z;
                    Monitor.alertCount := 0 |} in
  ms <~ getMonitors ;;
  setMonitors (ms ++ [monitor]) ;;;
  saveMonitors ;;;
  ret ("Monitor added successfully (ID: " +:+ newId +:+ "). Query: "
       +:+ quote +:+ query +:+ quote).

Definition removeMonitor (monitorId : string) : Method string :=
  ms <~ getMonitors ;;
  let initialCount := length ms in
  let kept := filter (fun m => Monitor.id m ≠ monitorId) ms in
  setMonitors kept ;;;
  if length kept <? initialCount
  then saveMonitors ;;;
       ret ("Monitor " +:+ monitorId +:+ " removed successfully.")
  else ret ("Monitor " +:+ monitorId +:+ " not found.").

(** The loop of [evaluateMonitor] that counts the matching items. *)
Definition itemMatches (query : string) (item : NewsItem.t) : bool :=
  let text := toLowerCase (NewsItem.title item +:+ " " +:+
                           NewsItem.description item) in
  includes text query.

Definition matchCount (monitor : Monitor.t) (news : list NewsItem.t) : nat :=
  let query := toLowerCase (Monitor.query monitor) in
  fold_left (fun count item =>
               if itemMatches query item then S count else count) news 0.

Definition matchRatio (monitor : Monitor.t) (news : list NewsItem.t) : float :=
  PrimFloat.div (JsNumber.ofNat (matchCount monitor news))
                (JsNumber.ofNat (Nat.max (length news) 1)).

(** The third parameter of the method, [marketData], is never read. *)
Definition evaluateMonitor (monitor : Monitor.t) (news : list NewsItem.t)
  : bool :=
  JsNumber.geb (matchRatio monitor news) (Monitor.alertThreshold monitor).

(** The branch [if (shouldAlert) { ... }] of the loop of [checkMonitors]:
    the monitor is updated and an alert is appended to the log. *)
Definition raiseAlert (monitor : Monitor.t) : Method Monitor.t :=
  checked <~ newDate ;;
  newId <~ generateId ;;
  stamp <~ newDate ;;
  pushAlert {| Alert.id := newId;
               Alert.monitorId := Some (Monitor.id monitor);
               Alert.query := Some (Monitor.query monitor);
               Alert.severity := medium;
               Alert.message := "Monitor " +:+ quote
                                +:+ Monitor.query monitor +:+ quote
                                +:+ " triggered an alert";
               Alert.details := None;
               Alert.timestamp := stamp;
               Alert.acknowledged := false;
               Alert.acknowledgedAt := None;
               Alert.acknowledgedBy := None |} ;;;
  ret {| Monitor.id := Monitor.id monitor;
         Monitor.query := Monitor.query monitor;
         Monitor.createdAt := Monitor.createdAt monitor;
         Monitor.lastChecked := checked;
         Monitor.isActive := Monitor.isActive monitor;
         Monitor.alertThreshold := Monitor.alertThreshold monitor;
         Monitor.checkInterval := Monitor.checkInterval monitor;
         Monitor.alertCount := S (Monitor.alertCount monitor) |}.

(** The [try] block of the loop, the evaluation of one monitor: the
    updated monitor and whether an alert was triggered. Nothing in the block
    can throw on well-typed items, so the [catch] branch is never taken. *)
Definition evaluateAndAlert (news : list NewsItem.t) (monitor : Monitor.t)
  : Method (Monitor.t * bool) :=
  if evaluateMonitor monitor news then
    monitor' <~ raiseAlert monitor ;;
    ret (monitor', true)
  else ret (monitor, false).

(** The body of the loop for one monitor: a monitor that is not active is
    skipped ([continue]), an active one is evaluated. *)
Definition checkMonitor (news : list NewsItem.t) (monitor : Monitor.t)
  : Method (Monitor.t * bool) :=
  if negb (Monitor.isActive monitor) then ret (monitor, false)
  else evaluateAndAlert news monitor.

(** The loop itself: the monitors are visited in order, each is replaced
    by its updated version, and the triggered alerts are counted. *)
Fixpoint checkEach (news : list NewsItem.t) (ms : list Monitor.t)
  : Method (list Monitor.t * nat) :=
  match ms with
  | [] => ret ([], 0)
  | monitor :: rest =>
      r <~ checkMonitor news monitor ;;
      rs <~ checkEach news rest ;;
      ret (fst r :: fst rs, (if snd r then 1 else 0) + snd rs)
  end.

(** [checkMonitors]: [getNews] stands for [this.newsModule.getNews]. The
    market overview that the method fetches next to the news is only handed
    to [evaluateMonitor], which does not read it. *)
Definition checkMonitors (getNews : string -> nat -> list NewsItem.t)
  : Method string :=
  ms <~ getMonitors ;;
  if length ms =? 0 then ret "No active monitors to check."
  else
    let news := getNews "all" 100 in
    r <~ checkEach news ms ;;
    setMonitors (fst r) ;;;
    saveMonitors ;;;
    ret ("Monitor check completed. " +:+ ofNat (snd r)
         +:+ " alerts triggered.").

(** [generateSummary], from the four counts and the two filtered
    counts. *)
Definition generateSummary (patternCount trendCount riskCount
    opportunityCount highRisks highOpportunities : nat) : string :=
  "Analysis detected " +:+ ofNat patternCount +:+ " patterns, "
  +:+ ofNat trendCount +:+ " trends, "
  +:+ ofNat riskCount +:+ " risks (" +:+ ofNat highRisks +:+ " high), and "
  +:+ ofNat opportunityCount +:+ " opportunities "
  +:+ "(" +:+ ofNat highOpportunities +:+ " high potential).".

(** [calculateConfidence] reads only the lengths of the four lists. *)
Definition calculateConfidence {P T R O : Type} (patterns : list P)
    (trends : list T) (risks : list R) (opportunities : list O) : float :=
  let totalItems :=
    length patterns + length trends + length risks + length opportunities in
  if totalItems =? 0 then 0%float
  else
    let patternWeight := (JsNumber.ofNat (length patterns) * 0.3)%float in
    let trendWeight := (JsNumber.ofNat (length trends) * 0.4)%float in
    let riskWeight := (JsNumber.ofNat (length risks) * 0.2)%float in
    let opportunityWeight :=
      (JsNumber.ofNat (length opportunities) * 0.1)%float in
    let weightedTotal :=
      (patternWeight + trendWeight + riskWeight + opportunityWeight)%float in
    let maxPossible := (JsNumber.ofNat totalItems * 0.4)%float in
    JsNumber.min 100%float
      (JsNumber.round ((weightedTotal / maxPossible) * 100)%float).

End WithOracle.

End AnalysisModule.

(** ** The analysis run *)

(** The finding types and the analyzers of the strategies directory, which
    is not among the sources: [analyze] calls them, and they are taken here
    as functions of the arguments they are called with. The heap goes with
    the news items because the items refer to their keyword arrays. *)
Record Strategies := {
  Quote : Type;
  Pattern : Type;
  Trend : Type;
  Risk : Type;
  Opportunity : Type;
  Decision : Type;
  Narrative : Type;
  MainCharacter : Type;
  risk_level : Risk -> string;
  opportunity_type : Opportunity -> string;
  analyzePatterns :
    gmap nat (list string) -> list NewsItem.t -> list Quote -> list Pattern;
  analyzeTrends :
    gmap nat (list string) -> list NewsItem.t -> list Quote -> list Trend;
  assessRisks :
    gmap nat (list string) -> list NewsItem.t -> list Quote -> list Risk;
  identifyOpportunities :
    gmap nat (list string) -> list NewsItem.t -> list Quote -> list Opportunity;
  generateRecommendations :
    list Pattern -> list Trend -> list Risk -> list Opportunity ->
    list Decision;
  extractNarratives :
    gmap nat (list string) -> list NewsItem.t -> list Quote -> list Narrative;
  identifyMainCharacters :
    gmap nat (list string) -> list NewsItem.t -> list Quote ->
    list MainCharacter;
}.

(** The input batch as the two source modules deliver it. *)
Record Sources (S : Strategies) := {
  heap : gmap nat (list string);
  getNews : string -> nat -> list NewsItem.t;
  getMarketOverview : list (Quote S);
}.
Arguments heap {S}.
Arguments getNews {S}.
Arguments getMarketOverview {S}.

Module Metadata.
Record t := {
  newsCount : nat;
  marketSymbolsCount : nat;
  analysisDuration : nat;
  patternsDetected : nat;
  risksIdentified : nat;
  opportunitiesIdentified : nat;
}.
End Metadata.

Module AnalysisResult.
Record t (S : Strategies) := {
  timestamp : Date;
  patterns : list (Pattern S);
  trends : list (Trend S);
  risks : list (Risk S);
  opportunities : list (Opportunity S);
  decisions : list (Decision S);
  narratives : list (Narrative S);
  mainCharacters : list (MainCharacter S);
  alerts : list Alert.t;
  summary : string;
  confidence : float;
  metadata : Metadata.t;
}.
Arguments timestamp {S}.
Arguments patterns {S}.
Arguments trends {S}.
Arguments risks {S}.
Arguments opportunities {S}.
Arguments decisions {S}.
Arguments narratives {S}.
Arguments mainCharacters {S}.
Arguments alerts {S}.
Arguments summary {S}.
Arguments confidence {S}.
Arguments metadata {S}.
End AnalysisResult.

(** The whole state of an [AnalysisModule] object. *)
Record ModuleState (S : Strategies) := {
  registry : Registry;
  analysisCache : gmap string (AnalysisResult.t S);
  lastAnalysisTime : option Date;
}.
Arguments registry {S}.
Arguments analysisCache {S}.
Arguments lastAnalysisTime {S}.

Module Analysis.

Section Run.

Variable env : Oracle.
Variable S : Strategies.

(** [analyze]. The call [this.checkMonitors(news, marketData)] passes
    two arguments to a method that declares none: [checkMonitors] fetches
    its own batch. The [alerts] field of the result is the alert log of
    the module as it stands when the result is built. *)
Definition analyze (src : Sources S) (st : ModuleState S)
  : AnalysisResult.t S * ModuleState S :=
  let news := getNews src "all" 50 in
  let marketData := getMarketOverview src in
  let patterns := analyzePatterns S (heap src) news marketData in
  let trends := analyzeTrends S (heap src) news marketData in
  let risks := assessRisks S (heap src) news marketData in
  let opportunities := identifyOpportunities S (heap src) news marketData in
  let decisions :=
    generateRecommendations S patterns trends risks opportunities in
  let narratives := extractNarratives S (heap src) news marketData in
  let mainCharacters :=
    identifyMainCharacters S (heap src) news marketData in
  let (_, reg1) :=
    AnalysisModule.checkMonitors env (getNews src) (registry st) in
  let (stamp, reg2) := AnalysisModule.newDate env reg1 in
  let highRisks :=
    length (List.filter (fun r => bool_decide (risk_level S r = "high"))
                        risks) in
  let highOpportunities :=
    length (List.filter
              (fun o => bool_decide (opportunity_type S o = "high_potential"))
              opportunities) in
  let result :=
    {| AnalysisResult.timestamp := stamp;
       AnalysisResult.patterns := patterns;
       AnalysisResult.trends := trends;
       AnalysisResult.risks := risks;
       AnalysisResult.opportunities := opportunities;
       AnalysisResult.decisions := decisions;
       AnalysisResult.narratives := narratives;
       AnalysisResult.mainCharacters := mainCharacters;
       AnalysisResult.alerts := alerts reg2;
       AnalysisResult.summary :=
         AnalysisModule.generateSummary (length patterns) (length trends)
           (length risks) (length opportunities) highRisks highOpportunities;
       AnalysisResult.confidence :=
         AnalysisModule.calculateConfidence patterns trends risks
           opportunities;
       AnalysisResult.metadata :=
         {| Metadata.newsCount := length news;
            Metadata.marketSymbolsCount := length marketData;
            Metadata.analysisDuration := 0;
            Metadata.patternsDetected := length patterns;
            Metadata.risksIdentified := length risks;
            Metadata.opportunitiesIdentified := length opportunities |} |} in
  let (finished, reg3) := AnalysisModule.newDate env reg2 in
  (result,
   {| registry := reg3;
      analysisCache := <["latest" := result]> (analysisCache st);
      lastAnalysisTime := Some finished |}).

End Run.

End Analysis.


(** The confidence score in exact arithmetic, as the formula reads:
    [min (100, round (100 * (0.3 p + 0.4 t + 0.2 r + 0.1 o) / (0.4 * total)))]
    with [round] the nearest integer, a tie going up, and 0 when the four
    lists are empty. It is the reference the floating-point computation of
    [calculateConfidence] is compared with. *)
Definition exactConfidence (p t r o : nat) : Z :=
  let total := p + t + r + o in
  if total =? 0 then 0%Z
  else
    let weighted :=
      ((3 # 10) * inject_Z (Z.of_nat p) + (4 # 10) * inject_Z (Z.of_nat t)
       + (2 # 10) * inject_Z (Z.of_nat r)
       + (1 # 10) * inject_Z (Z.of_nat o))%Q in
    let maxPossible := ((4 # 10) * inject_Z (Z.of_nat total))%Q in
    Z.min 100 (Qfloor (100 * (weighted / maxPossible) + (1 # 2))%Q).

(** ** Correlations *)

(** Modelled from the spec: the class [CorrelationAnalyzer] (strategies
    directory) is not among the sources; only the interface
    [CorrelationMatrix] and the caller [getCorrelations] are. The model
    follows section 4.3: Pearson's coefficient per pair of assets over the
    samples both assets have (the overlapping window); an asset with fewer
    samples than the minimum is left out, with a reason; the matrix is filled
    by construction, 1 on the diagonal and one coefficient per unordered pair
    stored in both cells; a pair is significant from an absolute coefficient
    of 0.5, moderate below 0.75 and strong from there. *)
Module CorrelationAnalyzer.


Inductive Strength := weak | moderate | strong.
Inductive Direction := positive | negative.

Record SignificantPair := {
  asset1 : string;
  asset2 : string;
  correlation : float;
  strength : Strength;
  direction : Direction;
}.

Record CorrelationMatrix := {
  assets : list string;
  correlations : list (list float);
  significantCorrelations : list SignificantPair;
  excluded : list (string * string);
}.





Section Model.

Variable minSamples : nat.






(** The cell in row [i] and column [j], if the matrix has it. *)
Definition entry (m : CorrelationMatrix) (i j : nat) : option float :=
  match correlations m !! i with
  | Some row => row !! j
  | None => None
  end.

End Model.

End CorrelationAnalyzer.


(** ** Reference notions and example inputs *)

Module Examples.
Import NewsModule AnalysisModule.

(** The parsed item of the examples: a title with a top-tier keyword and a
    snippet with a low-tier one. *)
Definition warItem : RssItem :=
  {| rss_title := Some "Trade war escalates";
     rss_link := Some "https://example.org/a";
     rss_content := None;
     rss_contentSnippet := Some "Exporters see a problem ahead" |}.

Definition quietItem : RssItem :=
  {| rss_title := Some "Council opens new library";
     rss_link := None;
     rss_content := None;
     rss_contentSnippet := Some "Readers welcome longer opening hours" |}.

(** What [enhanceKeywords] adds to the array it was handed. *)
Definition added (item : NewsItem.t) (old : list string) : list string :=
  let withCategory :=
    if arrayIncludes old (NewsItem.category item) then []
    else [NewsItem.category item] in
  let withRegion :=
    match NewsItem.region item with
    | Some (String c r) =>
        if arrayIncludes (old ++ withCategory) (String c r) then []
        else [String c r]
    | _ => []
    end in
  withCategory ++ withRegion.

(** The input of the example: one item of category "tech" whose keyword
    array, at reference 0, is empty. *)
Definition techItem : NewsItem.t :=
  {| NewsItem.id := "aHR0cHM6Ly";
     NewsItem.title := "Chip maker opens plant";
     NewsItem.description := "Production starts next year";
     NewsItem.content := None;
     NewsItem.url := "https://example.org/chips";
     NewsItem.source := "Wire";
     NewsItem.category := "tech";
     NewsItem.publishedAt := 1700000000000%Z;
     NewsItem.region := None;
     NewsItem.keywords := 0;
     NewsItem.alertLevel := none |}.

Definition techHeap : gmap nat (list string) := {[ 0 := [] ]}.

(** An item "contains the query" when its lower-cased title and description
    text has the lower-cased query as a substring. *)
Definition containsQuery (monitor : Monitor.t) (item : NewsItem.t) : bool :=
  includes (toLowerCase (NewsItem.title item +:+ " " +:+
                         NewsItem.description item))
           (toLowerCase (Monitor.query monitor)).

Definition countMatching (monitor : Monitor.t) (news : list NewsItem.t) : nat :=
  length (List.filter (containsQuery monitor) news).

(** Evaluating [monitor] raises exactly one alert: the alert log grows by
    one alert that refers to the monitor, the alert count grows by one and
    [lastChecked] becomes the clock reading taken first. *)
Definition RaisesOneAlert (env : Oracle) (news : list NewsItem.t)
    (monitor : Monitor.t) (s : Registry) : Prop :=
  exists alert monitor' s',
    evaluateAndAlert env news monitor s = ((monitor', true), s') /\
    alerts s' = alerts s ++ [alert] /\
    Alert.monitorId alert = Some (Monitor.id monitor) /\
    Monitor.alertCount monitor' = S (Monitor.alertCount monitor) /\
    Monitor.lastChecked monitor' = clock env (ticks s) /\
    activeMonitors s' = activeMonitors s.

(** Evaluating [monitor] changes nothing at all. *)
Definition RaisesNoAlert (env : Oracle) (news : list NewsItem.t)
    (monitor : Monitor.t) (s : Registry) : Prop :=
  evaluateAndAlert env news monitor s = ((monitor, false), s).

(** A monitor triggers in [checkMonitors] when it is active and its
    evaluation succeeds. *)
Definition fires (news : list NewsItem.t) (monitor : Monitor.t) : bool :=
  Monitor.isActive monitor && evaluateMonitor monitor news.

(** [monitor'] is what [checkMonitors] makes of [monitor]: the alert count
    grows by one if the monitor triggers, only [lastChecked] may change with
    it, and a monitor that does not trigger is left as it is. *)
Definition CheckedVersion (news : list NewsItem.t)
    (monitor monitor' : Monitor.t) : Prop :=
  Monitor.id monitor' = Monitor.id monitor /\
  Monitor.query monitor' = Monitor.query monitor /\
  Monitor.createdAt monitor' = Monitor.createdAt monitor /\
  Monitor.isActive monitor' = Monitor.isActive monitor /\
  Monitor.alertThreshold monitor' = Monitor.alertThreshold monitor /\
  Monitor.checkInterval monitor' = Monitor.checkInterval monitor /\
  Monitor.alertCount monitor'
  = Monitor.alertCount monitor + (if fires news monitor then 1 else 0) /\
  (fires news monitor = false -> monitor' = monitor).

(** The same monitor with another check interval and another time of the
    last check. *)
Definition reschedule (interval : Z) (checked : Date) (monitor : Monitor.t)
  : Monitor.t :=
  {| Monitor.id := Monitor.id monitor;
     Monitor.query := Monitor.query monitor;
     Monitor.createdAt := Monitor.createdAt monitor;
     Monitor.lastChecked := checked;
     Monitor.isActive := Monitor.isActive monitor;
     Monitor.alertThreshold := Monitor.alertThreshold monitor;
     Monitor.checkInterval := interval;
     Monitor.alertCount := Monitor.alertCount monitor |}.

Definition newsAbout (headline text : string) : NewsItem.t :=
  {| NewsItem.id := "aHR0cHM6Ly";
     NewsItem.title := headline;
     NewsItem.description := text;
     NewsItem.content := None;
     NewsItem.url := "https://example.org/n";
     NewsItem.source := "Wire";
     NewsItem.category := "finance";
     NewsItem.publishedAt := 1700000000000%Z;
     NewsItem.region := None;
     NewsItem.keywords := 0;
     NewsItem.alertLevel := none |}.

(** Ten items, eight of which mention bitcoin. *)
Definition tenItems : list NewsItem.t :=
  replicate 8 (newsAbout "Bitcoin rallies" "BTC gains again")
  ++ replicate 2 (newsAbout "Rain expected" "Showers in the north").

Definition monitorWith (threshold : float) (active : bool) : Monitor.t :=
  {| Monitor.id := "k3j9x0ab";
     Monitor.query := "bitcoin";
     Monitor.createdAt := 1700000000000%Z;
     Monitor.lastChecked := 1700000000000%Z;
     Monitor.isActive := active;
     Monitor.alertThreshold := threshold;
     Monitor.checkInterval := 3600%Z;
     Monitor.alertCount := 0 |}.

Definition steadyEnv : Oracle :=
  {| clock := fun n => (1700000000000 + Z.of_nat n)%Z;
     random := fun _ => "0.k3j9x0abcd" |}.


Definition emptyRegistry : Registry :=
  {| activeMonitors := []; alerts := []; ticks := 0; draws := 0 |}.

Definition oneMonitor (threshold : float) : Registry :=
  {| activeMonitors := [monitorWith threshold true]; alerts := [];
     ticks := 0; draws := 0 |}.

(** [calculateConfidence] on lists of the given lengths. *)
Definition confidenceOfCounts (p t r o : nat) : float :=
  calculateConfidence (replicate p tt) (replicate t tt) (replicate r tt)
                      (replicate o tt).

(** The computed score is an integer between 0 and 100 that is the exact
    score or one below it. *)
Definition nearExact (p t r o : nat) : bool :=
  let c := confidenceOfCounts p t r o in
  let e := exactConfidence p t r o in
  (PrimFloat.eqb c (JsNumber.ofZ e) || PrimFloat.eqb c (JsNumber.ofZ (e - 1)))
  && PrimFloat.leb 0%float c && PrimFloat.leb c 100%float
  && (0 <=? e)%Z && (e <=? 100)%Z.

Definition upTo (n : nat) : list nat := seq 0 (S n).

Definition nearExactUpTo (n : nat) : bool :=
  forallb (fun p => forallb (fun t => forallb (fun r => forallb (fun o =>
    nearExact p t r o) (upTo n)) (upTo n)) (upTo n)) (upTo n).

(** Strategies that find nothing, over findings that carry no data. *)
Definition noStrategies : Strategies :=
  {| Quote := unit; Pattern := unit; Trend := unit; Risk := unit;
     Opportunity := unit; Decision := unit; Narrative := unit;
     MainCharacter := unit;
     risk_level := fun _ => "low";
     opportunity_type := fun _ => "momentum";
     analyzePatterns := fun _ _ _ => [];
     analyzeTrends := fun _ _ _ => [];
     assessRisks := fun _ _ _ => [];
     identifyOpportunities := fun _ _ _ => [];
     generateRecommendations := fun _ _ _ _ => [];
     extractNarratives := fun _ _ _ => [];
     identifyMainCharacters := fun _ _ _ => [] |}.

(** A frozen batch: the ten items, and no quotes. *)
Definition frozenSources : Sources noStrategies :=
  {| heap := {[ 0 := [] ]};
     getNews := fun _ limit => take limit tenItems;
     getMarketOverview := [] |}.

Definition freshModule : ModuleState noStrategies :=
  {| registry := oneMonitor 0.7;
     analysisCache := ∅;
     lastAnalysisTime := None |}.


End Examples.


(** ** NewsModule: item ids, fetching, the cache and the queries *)

Module NewsFetch.
Import NewsModule.

(** [Buffer.from(text)]: the UTF-8 bytes of a string of Latin-1 code
    units. *)
Fixpoint utf8 (s : string) : list nat :=
  match s with
  | EmptyString => []
  | String c r =>
      let n := nat_of_ascii c in
      if n <? 128 then n :: utf8 r
      else (192 + n / 64) :: (128 + n mod 64) :: utf8 r
  end.

Definition alphabet : string :=
  "ABCDEFGHIJKLMNOPQRSTUVWXYZabcdefghijklmnopqrstuvwxyz0123456789+/".

Definition digit (n : nat) : ascii :=
  match String.get n alphabet with
  | Some c => c
  | None => "="%char
  end.

(** [.toString('base64')]: three bytes give four digits, and a last group
    of one or two bytes is padded with [=]. *)
Fixpoint base64 (bytes : list nat) : string :=
  match bytes with
  | [] => EmptyString
  | [a] =>
      String (digit (a / 4)) (String (digit (a mod 4 * 16)) "==")
  | [a; b] =>
      String (digit (a / 4))
        (String (digit (a mod 4 * 16 + b / 16))
           (String (digit (b mod 16 * 4)) "="))
  | a :: b :: c :: rest =>
      String (digit (a / 4))
        (String (digit (a mod 4 * 16 + b / 16))
           (String (digit (b mod 16 * 4 + c / 64))
              (String (digit (c mod 64)) (base64 rest))))
  end.

(** [generateId(item)] of [NewsModule]: the first ten base64 digits of the
    link, else of the title, else of the text of a random number
    ([randomText], only drawn when link and title are both missing). *)
Definition generateId (item : RssItem) (randomText : string) : string :=
  String.substring 0 10
    (base64 (utf8 (orElse (rss_link item)
                          (orElse (rss_title item) randomText)))).

(** The table of [detectRegionFromText]. *)
Definition targetRegions : list (string * list string) :=
  [("europe", ["europe"; "eu"; "uk"; "germany"; "france"; "italy"; "spain";
               "poland"; "netherlands"]);
   ("asia", ["asia"; "china"; "japan"; "india"; "korea"; "vietnam";
             "thailand"; "indonesia"]);
   ("middle-east", ["middle east"; "israel"; "iran"; "saudi"; "uae"; "qatar";
                    "syria"; "iraq"]);
   ("north-america", ["usa"; "us"; "united states"; "canada"; "mexico"]);
   ("south-america", ["south america"; "brazil"; "argentina"; "chile";
                      "colombia"; "peru"]);
   ("africa", ["africa"; "south africa"; "nigeria"; "egypt"; "kenya";
               "ethiopia"]);
   ("australia", ["australia"; "new zealand"; "oceania"])].

Fixpoint ownProperty (key : string) (table : list (string * list string))
  : option (list string) :=
  match table with
  | [] => None
  | (k, v) :: rest => if String.eqb k key then Some v else ownProperty key rest
  end.

(** What a call can end in: a value, or a thrown [TypeError]. *)
Inductive Outcome (A : Type) :=
| Returned (a : A)
| TypeError.
Arguments Returned {A}.
Arguments TypeError {A}.

(** [detectRegionFromText]. The lookup [regions[key]] on an object literal
    also finds what the object inherits: of the names a lower-cased key can
    spell, [constructor] and [__proto__]. Their values are truthy and are
    no arrays, so [targetKeywords.some] is not a function and the call
    throws. Every other key that is not in the table gives the empty
    list. *)
Definition detectRegionFromText (text targetRegion : string) : Outcome bool :=
  let key := toLowerCase targetRegion in
  match ownProperty key targetRegions with
  | Some targetKeywords =>
      Returned (existsb (fun keyword => includes (toLowerCase text) keyword)
                        targetKeywords)
  | None =>
      if String.eqb key "constructor" || String.eqb key "__proto__"
      then TypeError
      else Returned false
  end.

(** [Array.prototype.sort] with a comparator is stable; for a comparator
    that orders the elements consistently the outcome is the one stable
    arrangement, which inserting from the right produces: [x] goes before
    the first [y] that it does not have to follow. *)
Fixpoint insertBy {A : Type} (cmp : A -> A -> Z) (x : A) (l : list A)
  : list A :=
  match l with
  | [] => [x]
  | y :: r => if (cmp x y <=? 0)%Z then x :: y :: r else y :: insertBy cmp x r
  end.

Fixpoint sortBy {A : Type} (cmp : A -> A -> Z) (l : list A) : list A :=
  match l with
  | [] => []
  | x :: r => insertBy cmp x (sortBy cmp r)
  end.

(** [(a, b) => b.publishedAt.getTime() - a.publishedAt.getTime()]. *)
Definition newestFirst (a b : NewsItem.t) : Z :=
  (NewsItem.publishedAt b - NewsItem.publishedAt a)%Z.

(** The object [alertLevels] of [getAlerts]; it has no entry for
    [critical]. *)
Definition alertRank (level : AlertLevel) : option Z :=
  match level with
  | high => Some 3%Z
  | medium => Some 2%Z
  | low => Some 1%Z
  | none => Some 0%Z
  | critical => None
  end.

(** [(a, b) => alertLevels[b.alertLevel] - alertLevels[a.alertLevel]]; a
    missing entry makes the difference NaN, which [sort] reads as 0. *)
Definition mostSevereFirst (a b : NewsItem.t) : Z :=
  match alertRank (NewsItem.alertLevel b),
        alertRank (NewsItem.alertLevel a) with
  | Some rb, Some ra => (rb - ra)%Z
  | _, _ => 0%Z
  end.

(** An entry of a parsed feed: the item and its publication date, if the
    feed gave one (a date that parses). *)
Record ParsedItem := {
  parsed : RssItem;
  pubDate : option Date;
}.

(** The fields of [RSSFeed] that fetching reads. *)
Record Feed := {
  feedName : string;
  feedUrl : string;
  feedCategory : string;
}.

(** What the surroundings supply to [NewsModule]: the clock, the text of
    the [n]-th random number, the feeds the configuration lists for a
    category, and the answer to the [n]-th request of a feed ([None] when
    the request fails). *)
Record World := {
  timeAt : nat -> Date;
  randomTextAt : nat -> string;
  getFeedsByCategory : string -> list Feed;
  parseURL : nat -> string -> option (list ParsedItem);
}.

(** The state of a [NewsModule] object, with the heap of keyword arrays and
    the numbers of clock readings, random draws and feed requests so far. *)
Record State := {
  cache : gmap string (list NewsItem.t);
  lastFetchTime : option Date;
  arrays : gmap nat (list string);
  clockReads : nat;
  randomDraws : nat;
  requests : nat;
}.

Section WithWorld.

Variable world : World.

(** [new Date()] and [Date.now()]. *)
Definition readClock (s : State) : Date * State :=
  (timeAt world (clockReads s),
   {| cache := cache s; lastFetchTime := lastFetchTime s; arrays := arrays s;
      clockReads := S (clockReads s); randomDraws := randomDraws s;
      requests := requests s |}).

(** [generateId(item)] with its draw of a random number, which happens
    only when the item has neither link nor title. *)
Definition newItemId (item : RssItem) (s : State) : string * State :=
  if truthy (rss_link item) || truthy (rss_title item)
  then (generateId item EmptyString, s)
  else (generateId item (randomTextAt world (randomDraws s)),
        {| cache := cache s; lastFetchTime := lastFetchTime s;
           arrays := arrays s; clockReads := clockReads s;
           randomDraws := S (randomDraws s); requests := requests s |}).

(** One parsed item becomes a news item of the feed. *)
Definition fetchItem (feed : Feed) (p : ParsedItem) (s : State)
  : NewsItem.t * State :=
  let (newId, s1) := newItemId (parsed p) s in
  let (published, s2) :=
    match pubDate p with
    | Some d => (d, s1)
    | None => readClock s1
    end in
  let (item, h) :=
    toNewsItem (feedName feed) (feedCategory feed) newId published (parsed p)
               (arrays s2) in
  (item,
   {| cache := cache s2; lastFetchTime := lastFetchTime s2; arrays := h;
      clockReads := clockReads s2; randomDraws := randomDraws s2;
      requests := requests s2 |}).

Fixpoint fetchItems (feed : Feed) (ps : list ParsedItem) (s : State)
  : list NewsItem.t * State :=
  match ps with
  | [] => ([], s)
  | p :: rest =>
      let (item, s1) := fetchItem feed p s in
      let (items, s2) := fetchItems feed rest s1 in
      (item :: items, s2)
  end.

(** The body of the loop over the feeds: a feed whose request fails is
    logged and skipped. *)
Definition fetchFeed (feed : Feed) (s : State) : list NewsItem.t * State :=
  let s1 := {| cache := cache s; lastFetchTime := lastFetchTime s;
               arrays := arrays s; clockReads := clockReads s;
               randomDraws := randomDraws s; requests := S (requests s) |} in
  match parseURL world (requests s) (feedUrl feed) with
  | Some ps => fetchItems feed ps s1
  | None => ([], s1)
  end.

Fixpoint fetchFeeds (feeds : list Feed) (s : State)
  : list NewsItem.t * State :=
  match feeds with
  | [] => ([], s)
  | feed :: rest =>
      let (items, s1) := fetchFeed feed s in
      let (more, s2) := fetchFeeds rest s1 in
      (items ++ more, s2)
  end.

Definition fetchFromRSS (category : string) (s : State)
  : list NewsItem.t * State :=
  fetchFeeds (getFeedsByCategory world category) s.

(** [fetchFromGDELT] returns the empty list on each of its paths. *)
Definition fetchFromGDELT (category : string) : list NewsItem.t := [].

(** [isCacheValid]; the clock is read only when there was a fetch before. *)
Definition isCacheValid (s : State) : bool * State :=
  match lastFetchTime s with
  | None => (false, s)
  | Some fetched =>
      let (now, s1) := readClock s in
      ((now - fetched <? 5 * 60 * 1000)%Z, s1)
  end.

(** The part of [getNews] after a cache miss. *)
Definition refetch (category : string) (limit : nat) (s : State)
  : list NewsItem.t * State :=
  let gdeltItems := fetchFromGDELT category in
  let (rssItems, s1) := fetchFromRSS category s in
  let (processedItems, h) :=
    processNewsItems (gdeltItems ++ rssItems) (arrays s1) in
  let sorted := sortBy newestFirst processedItems in
  let cacheKey := category +:+ ":" +:+ ofNat limit in
  let s2 := {| cache := <[cacheKey := sorted]> (cache s1);
               lastFetchTime := lastFetchTime s1; arrays := h;
               clockReads := clockReads s1; randomDraws := randomDraws s1;
               requests := requests s1 |} in
  let (fetched, s3) := readClock s2 in
  (take limit sorted,
   {| cache := cache s3; lastFetchTime := Some fetched; arrays := arrays s3;
      clockReads := clockReads s3; randomDraws := randomDraws s3;
      requests := requests s3 |}).

(** [getNews(category, limit)] for a limit that is a natural number. *)
Definition getNews (category : string) (limit : nat) (s : State)
  : list NewsItem.t * State :=
  match cache s !! (category +:+ ":" +:+ ofNat limit) with
  | Some cached =>
      let (valid, s1) := isCacheValid s in
      if valid then (take limit cached, s1) else refetch category limit s1
  | None => refetch category limit s
  end.

(** [getAlerts(limit)]. *)
Definition getAlerts (limit : nat) (s : State) : list NewsItem.t * State :=
  let (allNews, s1) := getNews "all" 50 s in
  let alerts :=
    List.filter
      (fun item => negb (bool_decide (NewsItem.alertLevel item = none)))
      allNews in
  (take limit (sortBy mostSevereFirst alerts), s1).

(** The test of the [filter] in [getNewsByRegion], for one item. *)
Definition inRegion (region : string) (item : NewsItem.t) : Outcome bool :=
  let byField :=
    match NewsItem.region item with
    | Some r => includes (toLowerCase r) (toLowerCase region)
    | None => false
    end in
  if byField then Returned true
  else detectRegionFromText
         (NewsItem.title item +:+ " " +:+ NewsItem.description item) region.

Fixpoint filterRegion (region : string) (items : list NewsItem.t)
  : Outcome (list NewsItem.t) :=
  match items with
  | [] => Returned []
  | item :: rest =>
      match inRegion region item with
      | TypeError => TypeError
      | Returned keep =>
          match filterRegion region rest with
          | TypeError => TypeError
          | Returned kept => Returned (if keep then item :: kept else kept)
          end
      end
  end.

(** [getNewsByRegion(region, limit)]. *)
Definition getNewsByRegion (region : string) (limit : nat) (s : State)
  : Outcome (list NewsItem.t) * State :=
  let (allNews, s1) := getNews "all" 50 s in
  match filterRegion region allNews with
  | Returned regionalNews => (Returned (take limit regionalNews), s1)
  | TypeError => (TypeError, s1)
  end.

End WithWorld.

End NewsFetch.

(** ** The command handler *)

Module CommandHandler.

Section Handlers.

(** The handler functions and what running one gives. *)
Variable Handler : Type.
Variable Reply : Type.
Variable run : Handler -> list string -> Reply.

Record t := {
  commands : gmap string Handler;
  aliases : gmap string string;
}.

Definition empty : t := {| commands := ∅; aliases := ∅ |}.

Definition registerCommand (command : string) (handler : Handler)
    (aliasList : list string) (s : t) : t :=
  {| commands := <[toLowerCase command := handler]> (commands s);
     aliases :=
       fold_left (fun m alias =>
                    <[toLowerCase alias := toLowerCase command]> m)
                 aliasList (aliases s) |}.

(** The search for the handler in [handleCommand]: the command itself
    first, then the command an alias stands for. An alias whose target is
    the empty string counts as no alias ([if (actualCommand)]). *)
Definition findHandler (s : t) (command : string) : option Handler :=
  let normalizedCommand := toLowerCase command in
  match commands s !! normalizedCommand with
  | Some handler => Some handler
  | None =>
      match aliases s !! normalizedCommand with
      | Some (String c r) => commands s !! String c r
      | _ => None
      end
  end.

(** [handleCommand]: the help text when no handler is found. *)
Definition handleCommand (getHelpText : t -> Reply) (s : t)
    (command : string) (args : list string) : Reply :=
  match findHandler s command with
  | Some handler => run handler args
  | None => getHelpText s
  end.

Definition getCommandCount (s : t) : nat := size (commands s).

Definition hasCommand (s : t) (command : string) : bool :=
  let normalizedCommand := toLowerCase command in
  bool_decide (is_Some (commands s !! normalizedCommand))
  || bool_decide (is_Some (aliases s !! normalizedCommand)).

End Handlers.

End CommandHandler.


(** ** SituationMonitorSkill: the monitor command *)

Module SituationMonitorSkill.
Import AnalysisModule.

(** [parts.join(sep)]. *)
Fixpoint join (sep : string) (parts : list string) : string :=
  match parts with
  | [] => EmptyString
  | [part] => part
  | part :: rest => part +:+ sep +:+ join sep rest
  end.

Section WithModules.

Variable env : Oracle.

(** [this.newsModule.getNews], as [checkMonitors] calls it. *)
Variable getNews : string -> nat -> list NewsItem.t.

(** [listMonitors] formats the monitor list with the dates in the form of
    the locale; it reads the registry and changes nothing. *)
Variable listMonitors : Registry -> string.

(** [removeMonitor(undefined)], the call that [monitor remove] without an
    id makes: the id of a monitor is a string, so [m.id !== undefined] holds
    for every monitor, and the message is built from [undefined]. *)
Definition removeMonitorUndefined : Method string :=
  ms <~ getMonitors ;;
  let initialCount := length ms in
  let kept := List.filter (fun _ => true) ms in
  setMonitors kept ;;;
  if length kept <? initialCount
  then saveMonitors ;;;
       ret "Monitor undefined removed successfully."
  else ret "Monitor undefined not found.".

Definition handleMonitor (args : list string) : Method string :=
  let subcommand := orElse (head args) "list" in
  let params := drop 1 args in
  if String.eqb subcommand "add" then addMonitor env (join " " params)
  else if String.eqb subcommand "list" then
    fun s => (listMonitors s, s)
  else if String.eqb subcommand "remove" then
    match head params with
    | Some monitorId => removeMonitor monitorId
    | None => removeMonitorUndefined
    end
  else if String.eqb subcommand "check" then checkMonitors env getNews
  else ret ("Unknown monitor subcommand: " +:+ subcommand
            +:+ ". Use: add, list, remove, check").

(** A conversation: the monitor command run once for each argument list
    in turn. *)
Fixpoint handleMonitors (argLists : list (list string))
  : Method (list string) :=
  match argLists with
  | [] => ret []
  | args :: rest =>
      reply <~ handleMonitor args ;;
      replies <~ handleMonitors rest ;;
      ret (reply :: replies)
  end.

End WithModules.

(** The methods of the skill that serve as command handlers. *)
Inductive HandlerMethod :=
| handleNews | handleMarkets | handleCrypto | handleCommodities
| handleSectors | handleAnalyze | handleCorrelation | handleNarratives
| handleMainCharacter | handleAlerts | handleMonitorCommand | handleMap
| handleRegion | handleConfig | handleReport | handleExport.

(** [registerCommands]: the sixteen commands, in the order of the source,
    none with an alias. *)
Definition commandTable : list (string * HandlerMethod) :=
  [ ("news", handleNews); ("markets", handleMarkets);
    ("crypto", handleCrypto); ("commodities", handleCommodities);
    ("sectors", handleSectors); ("analyze", handleAnalyze);
    ("correlation", handleCorrelation); ("narratives", handleNarratives);
    ("mainchar", handleMainCharacter); ("alerts", handleAlerts);
    ("monitor", handleMonitorCommand); ("map", handleMap);
    ("region", handleRegion); ("config", handleConfig);
    ("report", handleReport); ("export", handleExport) ].

Definition registerCommands (s : CommandHandler.t HandlerMethod)
  : CommandHandler.t HandlerMethod :=
  fold_left (fun s entry =>
               CommandHandler.registerCommand _ entry.1 entry.2 [] s)
            commandTable s.

End SituationMonitorSkill.
(** ** Further reference notions and example inputs *)

Module MoreExamples.
Import NewsModule NewsFetch AnalysisModule Examples.
Import SituationMonitorSkill.

(** The text [extractKeywords] scans: title, snippet and content. *)
Definition keywordText (item : RssItem) : string :=
  toLowerCase (orElse (rss_title item) EmptyString +:+ " " +:+
               orElse (rss_contentSnippet item) EmptyString +:+ " " +:+
               orElse (rss_content item) EmptyString).

Definition crisisItem : RssItem :=
  {| rss_title := Some "Banking crisis deepens";
     rss_link := Some "https://example.org/banks";
     rss_content := Some "Regulators reach a deal";
     rss_contentSnippet := Some "Lenders seek help" |}.

(** The comparator that puts larger keys first. *)
Definition largerFirst {A : Type} (key : A -> Z) (a b : A) : Z :=
  (key b - key a)%Z.

(** A step leaves the cache and the time of the last fetch alone. *)
Definition SameCache (s s' : State) : Prop :=
  cache s' = cache s /\ lastFetchTime s' = lastFetchTime s.

(** The items a feed answers with when it is requested after [n] earlier
    requests: none when the request fails. *)
Definition answer (world : World) (n : nat) (feed : Feed) : list ParsedItem :=
  default [] (parseURL world n (feedUrl feed)).

(** A list of news items is ordered newest first. *)
Definition NewestFirst (items : list NewsItem.t) : Prop :=
  StronglySorted
    (fun a b => (NewsItem.publishedAt b <= NewsItem.publishedAt a)%Z) items.

(** The severity the object [alertLevels] gives a level that it lists. *)
Definition severity (level : AlertLevel) : Z := default 0%Z (alertRank level).

Definition MostSevereFirst (items : list NewsItem.t) : Prop :=
  StronglySorted
    (fun a b => (severity (NewsItem.alertLevel b)
                 <= severity (NewsItem.alertLevel a))%Z) items.

Definition NoCritical (items : list NewsItem.t) : Prop :=
  Forall (fun item => NewsItem.alertLevel item <> critical) items.

(** Every cached list is ordered newest first and holds no item of level
    critical, as is the case for the lists [getNews] stores. *)
Definition CacheOrdered (s : State) : Prop :=
  forall key items, cache s !! key = Some items ->
                    NewestFirst items /\ NoCritical items.

Definition cacheKey (category : string) (limit : nat) : string :=
  category +:+ ":" +:+ ofNat limit.

(** A world with two feeds for every category: the first answers with two
    items, the second fails. *)
Definition wireFeed : Feed :=
  {| feedName := "Wire"; feedUrl := "https://example.org/wire.xml";
     feedCategory := "finance" |}.

Definition deadFeed : Feed :=
  {| feedName := "Gazette"; feedUrl := "https://example.org/gone.xml";
     feedCategory := "politics" |}.

Definition demoWorld : World :=
  {| timeAt := fun n => (1700000000000 + 1000 * Z.of_nat n)%Z;
     randomTextAt := fun _ => "0.8171";
     getFeedsByCategory := fun _ => [wireFeed; deadFeed];
     parseURL := fun _ url =>
       if String.eqb url "https://example.org/wire.xml"
       then Some [ {| parsed := crisisItem;
                      pubDate := Some 1699999000000%Z |};
                   {| parsed := quietItem;
                      pubDate := Some 1699999900000%Z |} ]
       else None |}.

Definition newModule : State :=
  {| cache := ∅; lastFetchTime := None; arrays := ∅; clockReads := 0;
     randomDraws := 0; requests := 0 |}.

(** The registry as the module keeps it: every monitor is active with
    threshold 0.7 and an hourly interval, every alert is an unacknowledged
    alert of medium severity that names its monitor, and the monitors have
    counted no more alerts than the log holds. *)
Definition WellKept (s : Registry) : Prop :=
  Forall (fun m => Monitor.isActive m = true /\
                   Monitor.alertThreshold m = 0.7%float /\
                   Monitor.checkInterval m = 3600%Z) (activeMonitors s) /\
  Forall (fun a => Alert.severity a = medium /\
                   Alert.acknowledged a = false /\
                   is_Some (Alert.monitorId a)) (alerts s) /\
  sum_list (Monitor.alertCount <$> activeMonitors s) <= length (alerts s).

(** A monitor list in which no monitor has the id [monitorId]. *)
Definition UnusedId (monitorId : string) (s : Registry) : Prop :=
  monitorId ∉ (Monitor.id <$> activeMonitors s).

(** The id that the next call of [generateId] gives. *)
Definition nextId (env : Oracle) (s : Registry) : string :=
  String.substring 2 8 (random env (draws s)).

Definition newsFrom (items : list NewsItem.t) (category : string)
    (limit : nat) : list NewsItem.t := take limit items.

Definition noListing (s : Registry) : string := "No active monitors.".

(** Every alias stands for a registered command. *)
Definition AliasesResolve {Handler} (s : CommandHandler.t Handler) : Prop :=
  forall alias target,
    CommandHandler.aliases _ s !! alias = Some target ->
    target <> EmptyString /\
    is_Some (CommandHandler.commands _ s !! target).

(** Registrations one after the other, each a command with its handler
    and its aliases. *)
Definition registerAll {Handler}
    (registrations : list (string * Handler * list string))
    (s : CommandHandler.t Handler) : CommandHandler.t Handler :=
  fold_left (fun s r => CommandHandler.registerCommand _ r.1.1 r.1.2 r.2 s)
            registrations s.


(** Handlers that answer with their name and the number of arguments. *)
Definition runNamed (handler : string) (args : list string) : string :=
  handler +:+ "/" +:+ ofNat (length args).

Definition runMethod (handler : HandlerMethod) (args : list string)
  : option HandlerMethod := Some handler.

End MoreExamples.


(** * Properties *)

(** ** Strings *)

Lemma append_cons (c : ascii) (s t : string) :
  String c s +:+ t = String c (s +:+ t).
Proof. reflexivity. Qed.

Lemma append_empty_l (s : string) : EmptyString +:+ s = s.
Proof. reflexivity. Qed.

Lemma append_empty_r (s : string) : s +:+ EmptyString = s.
Proof.
  induction s as [|c s IH]; [reflexivity|]. now rewrite append_cons, IH.
Qed.

Lemma append_assoc (a b c : string) : (a +:+ b) +:+ c = a +:+ (b +:+ c).
Proof.
  induction a as [|x a IH]; [reflexivity|]. now rewrite !append_cons, IH.
Qed.

Lemma toLowerCase_app (a b : string) :
  toLowerCase (a +:+ b) = toLowerCase a +:+ toLowerCase b.
Proof.
  induction a as [|x a IH]; [reflexivity|].
  rewrite append_cons. simpl. now rewrite append_cons, IH.
Qed.

Lemma prefix_app (q a b : string) :
  String.prefix q a = true -> String.prefix q (a +:+ b) = true.
Proof.
  revert a. induction q as [|x q IH]; intros a H;
    [now destruct (a +:+ b)|].
  destruct a as [|y a]; [discriminate|].
  rewrite append_cons. simpl in *.
  destruct (Ascii.ascii_dec x y); [now apply IH | discriminate].
Qed.

Lemma includes_cons (x : ascii) (r q : string) :
  includes (String x r) q
  = if String.prefix q (String x r) then true else includes r q.
Proof. reflexivity. Qed.

Lemma includes_empty_query (text : string) : includes text EmptyString = true.
Proof. destruct text; reflexivity. Qed.

Lemma includes_app_l (a b q : string) :
  includes a q = true -> includes (a +:+ b) q = true.
Proof.
  induction a as [|x a IH]; intros H.
  - destruct q; [apply includes_empty_query | discriminate].
  - rewrite includes_cons in H. rewrite append_cons, includes_cons.
    destruct (String.prefix q (String x a)) eqn:E.
    + pose proof (prefix_app _ _ b E) as E'. rewrite append_cons in E'.
      now rewrite E'.
    + rewrite (IH H). now destruct (String.prefix q (String x (a +:+ b))).
Qed.

Lemma includes_app_r (a b q : string) :
  includes b q = true -> includes (a +:+ b) q = true.
Proof.
  intros H. induction a as [|x a IH]; [exact H|].
  rewrite append_cons, includes_cons, IH.
  now destruct (String.prefix q (String x (a +:+ b))).
Qed.

(** A substring found in the middle part is found in the whole. *)
Lemma includes_infix (pre mid post q : string) :
  includes mid q = true -> includes (pre +:+ mid +:+ post) q = true.
Proof. intros H. now apply includes_app_r, includes_app_l. Qed.

(** ** The classifier *)

Module NewsModuleFacts.
Import NewsModule Examples.

Lemma anyIncluded_true (text : string) (kws : list string) :
  anyIncluded text kws = true <->
  exists keyword, keyword ∈ kws /\ includes text keyword = true.
Proof.
  induction kws as [|k kws IH]; simpl.
  - split; [discriminate | intros (x & Hx & _); inversion Hx].
  - destruct (includes text k) eqn:E.
    + split; [|reflexivity]. intros _. exists k. split; [left | exact E].
    + rewrite IH. split.
      * intros (x & Hx & Hi). exists x. split; [now right | exact Hi].
      * intros (x & Hx & Hi). apply elem_of_cons in Hx as [->|Hx].
        -- congruence.
        -- now exists x.
Qed.

Lemma anyIncluded_false (text : string) (kws : list string) :
  anyIncluded text kws = false <->
  forall keyword, keyword ∈ kws -> includes text keyword = false.
Proof.
  split.
  - intros H k Hk. destruct (includes text k) eqn:E; [|reflexivity].
    assert (anyIncluded text kws = true) by (apply anyIncluded_true; eauto).
    congruence.
  - intros H. destruct (anyIncluded text kws) eqn:E; [|reflexivity].
    apply anyIncluded_true in E as (k & Hk & Hi). rewrite (H k Hk) in Hi.
    discriminate.
Qed.

(** The text the classifier scans occurs inside the lower-cased
    title-and-description text of the news item built from the same parsed
    item: the two differ only by the defaults ["No title"] and
    ["No description"] and by the fallback from the snippet to the content. *)
Lemma alertText_inside_item_text (item : RssItem) :
  exists pre post,
    toLowerCase (titleOf item +:+ " " +:+ descriptionOf item)
    = pre +:+ alertText item +:+ post.
Proof.
  unfold alertText, titleOf, descriptionOf.
  destruct item as [t l c s]; simpl.
  assert (Ht : exists p, orElse t "No title" = p +:+ orElse t EmptyString).
  { destruct t as [[|x t]|]; simpl.
    - now exists "No title".
    - now exists EmptyString.
    - now exists "No title". }
  assert (Hs : exists q, orElse s (orElse c "No description")
                         = orElse s EmptyString +:+ q).
  { destruct s as [[|x s]|]; simpl.
    - now exists (orElse c "No description").
    - exists EmptyString. now rewrite append_empty_r.
    - now exists (orElse c "No description"). }
  destruct Ht as (p & ->), Hs as (q & ->).
  exists (toLowerCase p), (toLowerCase q).
  rewrite !toLowerCase_app, !append_assoc. reflexivity.
Qed.

(** A keyword the classifier finds occurs in the title-and-description
    text as well. *)
Lemma scanned_keyword_occurs_in_item_text (item : RssItem) (keyword : string) :
  includes (alertText item) keyword = true ->
  includes (toLowerCase (titleOf item +:+ " " +:+ descriptionOf item)) keyword
  = true.
Proof.
  intros H. destruct (alertText_inside_item_text item) as (pre & post & ->).
  now apply includes_infix.
Qed.

(** Every keyword of the classifier is a keyword of the table
    [ALERT_KEYWORDS]. *)
Lemma classifier_keywords_in_table (level : AlertLevel) (kws : list string)
    (keyword : string) :
  (level, kws) ∈ alertTiers -> keyword ∈ kws ->
  exists level', keyword ∈ ALERT_KEYWORDS level'.
Proof.
  intros Ht Hk. unfold alertTiers in Ht.
  repeat (apply elem_of_cons in Ht as [Ht|Ht];
          [injection Ht as -> ->;
           repeat (apply elem_of_cons in Hk as [->|Hk];
                   [first [ exists critical; apply (bool_decide_unpack _);
                            vm_compute; exact I
                          | exists medium; apply (bool_decide_unpack _);
                            vm_compute; exact I
                          | exists low; apply (bool_decide_unpack _);
                            vm_compute; exact I ]|]);
           inversion Hk|]).
  inversion Ht.
Qed.

Lemma detectAlertLevel_none_of_misses (item : RssItem) :
  (forall level kws keyword,
      (level, kws) ∈ alertTiers -> keyword ∈ kws ->
      includes (alertText item) keyword = false) ->
  detectAlertLevel item = none.
Proof.
  intros Hmiss.
  assert (Hh : (high, highAlertKeywords) ∈ alertTiers) by left.
  assert (Hm : (medium, mediumAlertKeywords) ∈ alertTiers) by (right; left).
  assert (Hl : (low, lowAlertKeywords) ∈ alertTiers)
    by (right; right; left).
  unfold detectAlertLevel.
  rewrite (proj2 (anyIncluded_false _ _) (fun k => Hmiss _ _ k Hh)).
  rewrite (proj2 (anyIncluded_false _ _) (fun k => Hmiss _ _ k Hm)).
  rewrite (proj2 (anyIncluded_false _ _) (fun k => Hmiss _ _ k Hl)).
  reflexivity.
Qed.

(** The same holds when "alert keyword" is read as a keyword of the table
    [ALERT_KEYWORDS]: an item without any of those is classified [none]. *)
Lemma no_table_keyword_gives_none (item : RssItem) :
  (forall level keyword,
      keyword ∈ ALERT_KEYWORDS level ->
      includes (toLowerCase (titleOf item +:+ " " +:+ descriptionOf item))
               keyword = false) ->
  detectAlertLevel item = none.
Proof.
  intros Hnone. apply detectAlertLevel_none_of_misses.
  intros level kws k Ht Hk.
  destruct (classifier_keywords_in_table level kws k Ht Hk) as (level' & Hin).
  destruct (includes (alertText item) k) eqn:E; [|reflexivity].
  apply scanned_keyword_occurs_in_item_text in E.
  now rewrite (Hnone level' k Hin) in E.
Qed.

Lemma detectAlertLevel_never_critical (item : RssItem) :
  detectAlertLevel item <> critical.
Proof.
  unfold detectAlertLevel.
  repeat match goal with |- context [if ?b then _ else _] => destruct b end;
    discriminate.
Qed.

(** Each tier is decided by its own loop, and a later tier is reached only
    when the earlier ones found nothing. *)
Lemma detectAlertLevel_medium (item : RssItem) :
  anyIncluded (alertText item) highAlertKeywords = false ->
  anyIncluded (alertText item) mediumAlertKeywords = true ->
  detectAlertLevel item = medium.
Proof. unfold detectAlertLevel. now intros -> ->. Qed.

Lemma detectAlertLevel_low (item : RssItem) :
  anyIncluded (alertText item) highAlertKeywords = false ->
  anyIncluded (alertText item) mediumAlertKeywords = false ->
  anyIncluded (alertText item) lowAlertKeywords = true ->
  detectAlertLevel item = low.
Proof. unfold detectAlertLevel. now intros -> -> ->. Qed.

(** C2, as stated, fails: "war" is a keyword of the critical tier of
    [ALERT_KEYWORDS] and occurs in the text of [warItem] (in the text the
    classifier scans and in its title-and-description text alike), yet the
    classifier answers [high]; it has no critical tier. *)
Lemma critical_keyword_is_classified_high :
  "war" ∈ ALERT_KEYWORDS critical /\
  includes (alertText warItem) "war" = true /\
  includes (toLowerCase (titleOf warItem +:+ " " +:+ descriptionOf warItem))
           "war" = true /\
  detectAlertLevel warItem = high /\
  detectAlertLevel warItem <> critical.
Proof.
  split; [apply (bool_decide_unpack _); vm_compute; exact I|].
  repeat split; try (vm_compute; reflexivity). discriminate.
Qed.

(** C2, amended: the classifier has three tiers, visited in the order high,
    medium, low, and the first tier with a keyword in the text decides the
    level, whatever later tiers would match. In particular an item with a
    top-tier keyword (crisis, attack, emergency, disaster, war) is [high]. *)
Theorem detectAlertLevel_first_tier_wins (item : RssItem)
    (earlier later : list (AlertLevel * list string))
    (level : AlertLevel) (kws : list string) (keyword : string) :
  alertTiers = earlier ++ (level, kws) :: later ->
  (forall tier k, tier ∈ earlier -> k ∈ tier.2 ->
                  includes (alertText item) k = false) ->
  keyword ∈ kws ->
  includes (alertText item) keyword = true ->
  detectAlertLevel item = level.
Proof.
  intros Htiers Hearlier Hk Hin.
  assert (Hhit : anyIncluded (alertText item) kws = true)
    by (apply anyIncluded_true; eauto).
  assert (Hmiss : forall tier, tier ∈ earlier ->
                    anyIncluded (alertText item) tier.2 = false).
  { intros tier Ht. apply anyIncluded_false. intros k. now apply Hearlier. }
  unfold alertTiers in Htiers.
  destruct earlier as [|t1 [|t2 [|t3 earlier]]];
    simpl in Htiers; simplify_eq.
  - unfold detectAlertLevel. now rewrite Hhit.
  - apply detectAlertLevel_medium; [|exact Hhit].
    apply (Hmiss (high, highAlertKeywords)). left.
  - apply detectAlertLevel_low; [| |exact Hhit].
    + apply (Hmiss (high, highAlertKeywords)). left.
    + apply (Hmiss (medium, mediumAlertKeywords)). right. left.
  - destruct earlier; discriminate.
Qed.

Lemma detectAlertLevel_first_tier_wins_witness :
  detectAlertLevel warItem = high.
Proof.
  apply (detectAlertLevel_first_tier_wins warItem []
           [(medium, mediumAlertKeywords); (low, lowAlertKeywords)]
           high highAlertKeywords "war").
  - reflexivity.
  - intros tier k Ht. inversion Ht.
  - apply (bool_decide_unpack _). vm_compute. exact I.
  - vm_compute. reflexivity.
Defined.

(** C3: a parsed item whose news item has no alert keyword of any tier in
    its title-and-description text is classified [none]. *)
Theorem no_alert_keyword_gives_none (feedName feedCategory newId : string)
    (pubDate : Date) (item : RssItem) (h : gmap nat (list string)) :
  let newsItem := (toNewsItem feedName feedCategory newId pubDate item h).1 in
  (forall level kws keyword,
      (level, kws) ∈ alertTiers -> keyword ∈ kws ->
      includes (toLowerCase (NewsItem.title newsItem +:+ " " +:+
                             NewsItem.description newsItem)) keyword = false) ->
  NewsItem.alertLevel newsItem = none.
Proof.
  intros newsItem Hnone. subst newsItem. unfold toNewsItem in *.
  simpl in *. apply detectAlertLevel_none_of_misses.
  intros level kws k Ht Hk.
  destruct (includes (alertText item) k) eqn:E; [|reflexivity].
  apply scanned_keyword_occurs_in_item_text in E.
  now rewrite (Hnone level kws k Ht Hk) in E.
Qed.

Lemma no_alert_keyword_gives_none_witness :
  NewsItem.alertLevel
    (toNewsItem "Gazette" "politics" "aHR0cHM6Ly" 1700000000000%Z quietItem
                ∅).1
  = none.
Proof.
  apply no_alert_keyword_gives_none.
  intros level kws keyword Ht Hk.
  unfold alertTiers in Ht.
  repeat (apply elem_of_cons in Ht as [Ht|Ht];
          [injection Ht as -> ->;
           repeat (apply elem_of_cons in Hk as [->|Hk];
                   [vm_compute; reflexivity|]);
           inversion Hk|]).
  inversion Ht.
Defined.

End NewsModuleFacts.

(** ** The keyword arrays *)

Module KeywordFacts.
Import NewsModule Examples.

Lemma read_push_same (h : gmap nat (list string)) (r : Ref) (x : string) :
  Heap.read (Heap.push h r x) r = Heap.read h r ++ [x].
Proof. unfold Heap.push, Heap.read at 1. now rewrite lookup_insert_eq. Qed.

Lemma read_push_other (h : gmap nat (list string)) (r r' : Ref) (x : string) :
  r <> r' -> Heap.read (Heap.push h r x) r' = Heap.read h r'.
Proof.
  intros Hne. unfold Heap.push, Heap.read at 1.
  now rewrite lookup_insert_ne.
Qed.

Lemma push_keeps_allocated (h : gmap nat (list string)) (r r' : Ref)
    (x : string) :
  is_Some (h !! r') -> is_Some (Heap.push h r x !! r').
Proof.
  intros H. unfold Heap.push. destruct (decide (r = r')) as [->|Hne].
  - rewrite lookup_insert_eq. eauto.
  - now rewrite lookup_insert_ne.
Qed.

(** A new array never takes the place of an existing one. *)
Lemma read_alloc_allocated (h : gmap nat (list string)) (v : list string)
    (r : Ref) :
  is_Some (h !! r) -> Heap.read (Heap.alloc h v).2 r = Heap.read h r.
Proof.
  intros Hr. unfold Heap.alloc, Heap.read. simpl.
  rewrite lookup_insert_ne; [reflexivity|].
  intros <-. apply (is_fresh (dom h)). now apply elem_of_dom.
Qed.

(** [enhanceKeywords] writes through the reference of its argument: after
    the call the array of the input item holds the added keywords too. *)
Lemma enhanceKeywords_writes_input (item : NewsItem.t)
    (h : gmap nat (list string)) :
  is_Some (h !! NewsItem.keywords item) ->
  Heap.read (enhanceKeywords item h).2 (NewsItem.keywords item)
  = Heap.read h (NewsItem.keywords item)
    ++ added item (Heap.read h (NewsItem.keywords item)).
Proof.
  intros Hr. unfold enhanceKeywords, added. cbv zeta.
  set (k := NewsItem.keywords item) in *.
  set (old := Heap.read h k).
  destruct (arrayIncludes old (NewsItem.category item)) eqn:Ec;
    destruct (NewsItem.region item) as [[|c r]|];
    rewrite ?read_push_same; fold old; rewrite ?app_nil_r;
    repeat match goal with
           | |- context [if ?b then _ else _] => destruct b
           end;
    (rewrite read_alloc_allocated;
     [| repeat apply push_keeps_allocated; exact Hr]);
    rewrite ?read_push_same; fold old;
    rewrite ?app_nil_r, <- ?app_assoc; reflexivity.
Qed.

(** Arrays other than the one of the item are left alone. *)
Lemma enhanceKeywords_frame (item : NewsItem.t) (h : gmap nat (list string))
    (r : Ref) :
  r <> NewsItem.keywords item -> is_Some (h !! r) ->
  Heap.read (enhanceKeywords item h).2 r = Heap.read h r.
Proof.
  intros Hne Hr. unfold enhanceKeywords. cbv zeta.
  destruct (arrayIncludes _ (NewsItem.category item));
    destruct (NewsItem.region item) as [[|c s]|];
    repeat match goal with
           | |- context [if ?b then _ else _] => destruct b
           end;
    (rewrite read_alloc_allocated;
     [| repeat apply push_keeps_allocated; exact Hr]);
    rewrite ?read_push_other by congruence; reflexivity.
Qed.

(** The array of the input item is left as it was exactly when nothing had
    to be added: the category, and the region if there is one, were among
    the keywords already. *)
Lemma enhanceKeywords_input_unchanged_iff (item : NewsItem.t)
    (h : gmap nat (list string)) :
  is_Some (h !! NewsItem.keywords item) ->
  Heap.read (enhanceKeywords item h).2 (NewsItem.keywords item)
  = Heap.read h (NewsItem.keywords item)
  <-> added item (Heap.read h (NewsItem.keywords item)) = [].
Proof.
  intros Hr. rewrite (enhanceKeywords_writes_input item h Hr). split.
  - intros H. apply (app_inv_head (Heap.read h (NewsItem.keywords item))).
    now rewrite app_nil_r.
  - intros ->. now rewrite app_nil_r.
Qed.

(** C6 on the code: [processNewsItems] returns a copy of [techItem] with a
    new keyword array, and it also changes the array of [techItem] itself,
    from empty to ["tech"]. *)
Lemma processNewsItems_changes_input_keywords :
  let result := processNewsItems [techItem] techHeap in
  Heap.read techHeap (NewsItem.keywords techItem) = [] /\
  Heap.read result.2 (NewsItem.keywords techItem) = ["tech"] /\
  (NewsItem.keywords <$> result.1) = [1] /\
  Heap.read result.2 1 = ["tech"].
Proof. vm_compute. repeat split. Qed.

End KeywordFacts.

(** ** The monitor registry *)

Module MonitorFacts.
Import AnalysisModule Examples.

Lemma itemMatches_containsQuery (monitor : Monitor.t) (item : NewsItem.t) :
  itemMatches (toLowerCase (Monitor.query monitor)) item
  = containsQuery monitor item.
Proof. reflexivity. Qed.

(** The counting loop counts the items that contain the query. *)
Lemma matchCount_countMatching (monitor : Monitor.t) (news : list NewsItem.t) :
  matchCount monitor news = countMatching monitor news.
Proof.
  unfold matchCount, countMatching.
  assert (H : forall acc,
    fold_left (fun count item =>
                 if itemMatches (toLowerCase (Monitor.query monitor)) item
                 then S count else count) news acc
    = acc + length (List.filter (containsQuery monitor) news)).
  { induction news as [|item news IH]; intros acc; simpl; [lia|].
    rewrite IH, itemMatches_containsQuery.
    destruct (containsQuery monitor item); simpl; lia. }
  now rewrite H.
Qed.


Lemma checkMonitor_inactive (env : Oracle) (news : list NewsItem.t)
    (monitor : Monitor.t) (s : Registry) :
  Monitor.isActive monitor = false ->
  checkMonitor env news monitor s = ((monitor, false), s).
Proof. intros H. unfold checkMonitor. now rewrite H. Qed.

Lemma checkMonitor_active (env : Oracle) (news : list NewsItem.t)
    (monitor : Monitor.t) (s : Registry) :
  Monitor.isActive monitor = true ->
  checkMonitor env news monitor s = evaluateAndAlert env news monitor s.
Proof. intros H. unfold checkMonitor. now rewrite H. Qed.

Lemma evaluateAndAlert_quiet (env : Oracle) (news : list NewsItem.t)
    (monitor : Monitor.t) (s : Registry) :
  evaluateMonitor monitor news = false ->
  RaisesNoAlert env news monitor s.
Proof.
  intros H. unfold RaisesNoAlert, evaluateAndAlert. now rewrite H.
Qed.

Lemma checkMonitor_quiet (env : Oracle) (news : list NewsItem.t)
    (monitor : Monitor.t) (s : Registry) :
  evaluateMonitor monitor news = false ->
  checkMonitor env news monitor s = ((monitor, false), s).
Proof.
  intros H. unfold checkMonitor.
  destruct (Monitor.isActive monitor); [|reflexivity].
  now apply evaluateAndAlert_quiet.
Qed.

Lemma evaluateAndAlert_triggered (env : Oracle) (news : list NewsItem.t)
    (monitor : Monitor.t) (s : Registry) :
  evaluateMonitor monitor news = true ->
  RaisesOneAlert env news monitor s.
Proof.
  intros He. unfold RaisesOneAlert, evaluateAndAlert. rewrite He.
  unfold raiseAlert, bind, newDate, generateId, pushAlert, ret. simpl.
  eexists _, _, _. split; [reflexivity|]. simpl. repeat split.
Qed.



Lemma checkEach_cons (env : Oracle) (news : list NewsItem.t) (m : Monitor.t)
    (ms : list Monitor.t) (s : Registry) :
  checkEach env news (m :: ms) s
  = let (r, s1) := checkMonitor env news m s in
    let (rs, s2) := checkEach env news ms s1 in
    ((r.1 :: rs.1, (if r.2 then 1 else 0) + rs.2), s2).
Proof.
  simpl. unfold bind. destruct (checkMonitor env news m s) as [r s1].
  now destruct (checkEach env news ms s1).
Qed.

(** The loop of [checkMonitors]: the alerts it appends, in order, are one
    per triggering monitor. *)
Lemma checkEach_spec (env : Oracle) (news : list NewsItem.t)
    (ms : list Monitor.t) (s : Registry) :
  exists raised,
    alerts (checkEach env news ms s).2 = alerts s ++ raised /\
    Alert.monitorId <$> raised
    = (fun m => Some (Monitor.id m)) <$> List.filter (fires news) ms /\
    (checkEach env news ms s).1.2 = length raised /\
    activeMonitors (checkEach env news ms s).2 = activeMonitors s /\
    Forall2 (CheckedVersion news) ms (checkEach env news ms s).1.1.
Proof.
  revert s. induction ms as [|m ms IH]; intros s.
  - exists []. simpl. rewrite app_nil_r. repeat split. constructor.
  - rewrite checkEach_cons.
    destruct (fires news m) eqn:Ef.
    + apply andb_true_iff in Ef as Ef'. destruct Ef' as [Ha He].
      destruct (evaluateAndAlert_triggered env news m s He)
        as (a & m' & s1 & Hrun & Hal & Hid & Hcount & _ & Hms).
      rewrite checkMonitor_active, Hrun by exact Ha.
      destruct (IH s1) as (raised & Hal' & Hids & Hn & Hms' & Hall).
      destruct (checkEach env news ms s1) as [[ms' n] s2].
      cbn [fst snd] in *.
      exists (a :: raised). rewrite Hal', Hal, <- app_assoc.
      rewrite fmap_cons, Hid, Hids, Hn, Hms', Hms.
      cbn [List.filter]. rewrite Ef, fmap_cons.
      repeat split.
      constructor; [|exact Hall].
      unfold evaluateAndAlert in Hrun. rewrite He in Hrun.
      unfold raiseAlert, bind, newDate, generateId, pushAlert, ret in Hrun.
      simpl in Hrun. injection Hrun as <- _.
      unfold CheckedVersion. simpl. rewrite Ef.
      repeat split; first [reflexivity | now symmetry | lia | discriminate].
    + assert (Hrun : checkMonitor env news m s = ((m, false), s)).
      { apply andb_false_iff in Ef as [Ha|He].
        - now apply checkMonitor_inactive.
        - now apply checkMonitor_quiet. }
      rewrite Hrun.
      destruct (IH s) as (raised & Hal' & Hids & Hn & Hms' & Hall).
      destruct (checkEach env news ms s) as [[ms' n] s2].
      cbn [fst snd] in *. cbn [List.filter]. rewrite Ef.
      exists raised. repeat split; try assumption.
      constructor; [|exact Hall].
      unfold CheckedVersion. rewrite Ef. repeat split. lia.
Qed.

Lemma checkMonitors_unfold (env : Oracle)
    (getNews : string -> nat -> list NewsItem.t) (s : Registry) :
  checkMonitors env getNews s
  = if length (activeMonitors s) =? 0
    then ("No active monitors to check.", s)
    else
      let (r, s1) := checkEach env (getNews "all" 100) (activeMonitors s) s in
      ("Monitor check completed. " +:+ ofNat r.2 +:+ " alerts triggered.",
       {| activeMonitors := r.1; alerts := alerts s1;
          ticks := ticks s1; draws := draws s1 |}).
Proof.
  unfold checkMonitors, bind, getMonitors, setMonitors, saveMonitors, ret.
  destruct (length (activeMonitors s) =? 0); [reflexivity|].
  now destruct (checkEach env (getNews "all" 100) (activeMonitors s) s).
Qed.

Lemma fires_reschedule (news : list NewsItem.t) (interval : Z) (checked : Date)
    (monitor : Monitor.t) :
  fires news (reschedule interval checked monitor) = fires news monitor.
Proof. reflexivity. Qed.

(** C5: a run of [checkMonitors] appends one alert per monitor that is
    active and whose evaluation succeeds, in registry order, and nothing
    else; whether a monitor triggers does not depend on its check interval
    or on the time of its last check; a monitor that is not active is left
    exactly as it was. In the loop an active monitor always goes through the
    evaluation, and one that is not active never does. *)
Theorem checkMonitors_evaluates_active_monitors_only (env : Oracle)
    (getNews : string -> nat -> list NewsItem.t) (s : Registry) :
  let news := getNews "all" 100 in
  let s' := (checkMonitors env getNews s).2 in
  (exists raised,
      alerts s' = alerts s ++ raised /\
      Alert.monitorId <$> raised
      = (fun m => Some (Monitor.id m))
          <$> List.filter
                (fun m => Monitor.isActive m && evaluateMonitor m news)
                (activeMonitors s)) /\
  Forall2 (CheckedVersion news) (activeMonitors s) (activeMonitors s') /\
  Forall2 (fun m m' => Monitor.isActive m = false -> m' = m)
          (activeMonitors s) (activeMonitors s') /\
  (forall m interval checked,
      Monitor.isActive (reschedule interval checked m)
      && evaluateMonitor (reschedule interval checked m) news
      = Monitor.isActive m && evaluateMonitor m news) /\
  (forall m s0,
      (Monitor.isActive m = true ->
       checkMonitor env news m s0 = evaluateAndAlert env news m s0) /\
      (Monitor.isActive m = false ->
       checkMonitor env news m s0 = ((m, false), s0))).
Proof.
  intros news s'. subst s'. rewrite checkMonitors_unfold. fold news.
  split; [|split; [|split; [|split]]]; [| | |reflexivity|].
  4: { intros m s0. split;
         [apply checkMonitor_active | apply checkMonitor_inactive]. }
  - destruct (activeMonitors s) as [|m ms] eqn:Ems.
    + exists []. simpl. now rewrite app_nil_r.
    + change (length (m :: ms) =? 0) with false. cbv iota.
      destruct (checkEach_spec env news (m :: ms) s)
        as (raised & Hal & Hids & _).
      destruct (checkEach env news (m :: ms) s) as [[ms' n] s1].
      exists raised. split; [exact Hal | exact Hids].
  - destruct (activeMonitors s) as [|m ms] eqn:Ems.
    + simpl. rewrite Ems. constructor.
    + change (length (m :: ms) =? 0) with false. cbv iota.
      destruct (checkEach_spec env news (m :: ms) s)
        as (raised & _ & _ & _ & _ & Hall).
      now destruct (checkEach env news (m :: ms) s) as [[ms' n] s1].
  - destruct (activeMonitors s) as [|m ms] eqn:Ems.
    + simpl. rewrite Ems. constructor.
    + change (length (m :: ms) =? 0) with false. cbv iota.
      destruct (checkEach_spec env news (m :: ms) s)
        as (raised & _ & _ & _ & _ & Hall).
      destruct (checkEach env news (m :: ms) s) as [[ms' n] s1].
      cbn [fst snd activeMonitors] in *.
      eapply Forall2_impl; [exact Hall|].
      intros x y (_ & _ & _ & _ & _ & _ & _ & Hsame) Hx. apply Hsame.
      unfold fires. now rewrite Hx.
Qed.

Lemma checkMonitors_evaluates_active_monitors_only_witness :
  checkMonitor steadyEnv tenItems (monitorWith 0.7 false) emptyRegistry
  = ((monitorWith 0.7 false, false), emptyRegistry) /\
  checkMonitor steadyEnv tenItems (monitorWith 0.7 true) emptyRegistry
  = evaluateAndAlert steadyEnv tenItems (monitorWith 0.7 true) emptyRegistry.
Proof.
  destruct (checkMonitors_evaluates_active_monitors_only steadyEnv
              (fun _ _ => tenItems) emptyRegistry) as (_ & _ & _ & _ & H).
  split.
  - apply (proj2 (H (monitorWith 0.7 false) emptyRegistry)). reflexivity.
  - apply (proj1 (H (monitorWith 0.7 true) emptyRegistry)). reflexivity.
Defined.

(** C4: removing an id that no monitor has reports "not found" and leaves
    the module as it is; removing an id that is present reports success and
    keeps, in order, exactly the monitors with another id. *)
Theorem removeMonitor_spec (monitorId : string) (s : Registry) :
  (monitorId ∉ (Monitor.id <$> activeMonitors s) ->
   removeMonitor monitorId s
   = ("Monitor " +:+ monitorId +:+ " not found.", s)) /\
  (monitorId ∈ (Monitor.id <$> activeMonitors s) ->
   exists s',
     removeMonitor monitorId s
     = ("Monitor " +:+ monitorId +:+ " removed successfully.", s') /\
     activeMonitors s'
     = filter (fun m => Monitor.id m <> monitorId) (activeMonitors s) /\
     (forall m, m ∈ activeMonitors s' <->
                m ∈ activeMonitors s /\ Monitor.id m <> monitorId) /\
     alerts s' = alerts s /\ ticks s' = ticks s /\ draws s' = draws s).
Proof.
  unfold removeMonitor, bind, getMonitors, setMonitors, saveMonitors, ret.
  simpl. split.
  - intros Habsent.
    assert (Hkeep : filter (fun m => Monitor.id m <> monitorId)
                           (activeMonitors s) = activeMonitors s).
    { induction (activeMonitors s) as [|m ms IH]; [reflexivity|].
      rewrite fmap_cons, not_elem_of_cons in Habsent.
      destruct Habsent as [Hne Hrest].
      rewrite filter_cons_True by congruence. now rewrite IH. }
    rewrite Hkeep. rewrite (proj2 (Nat.ltb_ge _ _)) by lia.
    simpl. now destruct s.
  - intros Hpresent.
    assert (Hshorter : length (filter (fun m => Monitor.id m <> monitorId)
                                      (activeMonitors s))
                       < length (activeMonitors s)).
    { induction (activeMonitors s) as [|m ms IH]; [inversion Hpresent|].
      destruct (decide (Monitor.id m = monitorId)) as [Heq|Hne].
      - rewrite filter_cons_False by tauto. simpl.
        pose proof (length_filter (fun m => Monitor.id m <> monitorId) ms).
        lia.
      - rewrite filter_cons_True by exact Hne. simpl.
        rewrite fmap_cons in Hpresent.
        apply elem_of_cons in Hpresent as [Heq|Hin]; [congruence|].
        specialize (IH Hin). lia. }
    rewrite (proj2 (Nat.ltb_lt _ _) Hshorter). simpl.
    eexists. split; [reflexivity|]. simpl.
    split; [reflexivity|]. split; [|repeat split].
    intros m. rewrite list_elem_of_filter. tauto.
Qed.

Lemma removeMonitor_spec_witness :
  removeMonitor "nosuchid" (oneMonitor 0.7)
  = ("Monitor nosuchid not found.", oneMonitor 0.7) /\
  (removeMonitor "k3j9x0ab" (oneMonitor 0.7)).1
  = "Monitor k3j9x0ab removed successfully.".
Proof.
  split.
  - apply (proj1 (removeMonitor_spec "nosuchid" (oneMonitor 0.7))).
    apply (bool_decide_unpack _). vm_compute. exact I.
  - destruct (proj2 (removeMonitor_spec "k3j9x0ab" (oneMonitor 0.7)))
      as (s' & Hrun & _).
    + apply (bool_decide_unpack _). vm_compute. exact I.
    + now rewrite Hrun.
Defined.

(** A positive number is not at most zero. *)
Lemma positive_not_le_zero (t : float) :
  PrimFloat.ltb 0%float t = true -> PrimFloat.leb t 0%float = false.
Proof.
  intros H.
  rewrite FloatAxioms.ltb_spec in H. rewrite FloatAxioms.leb_spec.
  change (Prim2SF 0) with (S754_zero false) in *.
  destruct (Prim2SF t) as [sg|sg| |sg m e]; simpl in *;
    try discriminate; destruct sg; simpl in *; try discriminate; reflexivity.
Qed.

(** C10: the divisor of the ratio is at least 1 for every batch; on the empty
    batch the ratio is the number 0, so a monitor whose threshold is
    positive does not trigger and the evaluation changes nothing. *)
Theorem empty_batch_never_alerts (env : Oracle) (monitor : Monitor.t)
    (s : Registry) :
  PrimFloat.ltb 0%float (Monitor.alertThreshold monitor) = true ->
  (forall news : list NewsItem.t, 1 <= Nat.max (length news) 1) /\
  matchRatio monitor [] = 0%float /\
  PrimFloat.is_nan (matchRatio monitor []) = false /\
  evaluateMonitor monitor [] = false /\
  RaisesNoAlert env [] monitor s /\
  checkMonitor env [] monitor s = ((monitor, false), s).
Proof.
  intros Hpos.
  assert (He : evaluateMonitor monitor [] = false).
  { unfold evaluateMonitor, JsNumber.geb.
    change (matchRatio monitor []) with 0%float.
    now apply positive_not_le_zero. }
  repeat split; try reflexivity; try exact He.
  - intros news. lia.
  - now apply evaluateAndAlert_quiet.
  - now apply checkMonitor_quiet.
Qed.

Lemma empty_batch_never_alerts_witness :
  PrimFloat.ltb 0%float (Monitor.alertThreshold (monitorWith 0.7 true))
  = true /\
  RaisesNoAlert steadyEnv [] (monitorWith 0.7 true) emptyRegistry.
Proof.
  split; [reflexivity|].
  apply (empty_batch_never_alerts steadyEnv (monitorWith 0.7 true)
           emptyRegistry eq_refl).
Defined.

End MonitorFacts.

(** ** The confidence score *)

Module ConfidenceFacts.
Import AnalysisModule Examples.

Lemma calculateConfidence_counts {P T R O : Type} (patterns : list P)
    (trends : list T) (risks : list R) (opportunities : list O) :
  calculateConfidence patterns trends risks opportunities
  = confidenceOfCounts (length patterns) (length trends) (length risks)
                       (length opportunities).
Proof.
  unfold confidenceOfCounts, calculateConfidence.
  now rewrite !length_replicate.
Qed.

Lemma calculateConfidence_empty {P T R O : Type} :
  calculateConfidence (@nil P) (@nil T) (@nil R) (@nil O) = 0%float.
Proof. reflexivity. Qed.

(** The steps of the computation for one pattern and one trend: the weights
    add up to 0.7, the quotient by 0.8 falls just below 0.875, and the
    product with 100 just below 87.5. *)
Lemma one_pattern_one_trend_steps :
  (JsNumber.ofNat 1 * 0.3 + JsNumber.ofNat 1 * 0.4
   + JsNumber.ofNat 0 * 0.2 + JsNumber.ofNat 0 * 0.1)%float = 0.7%float /\
  (JsNumber.ofNat 2 * 0.4)%float = 0.8%float /\
  (0.7 / 0.8)%float = 0.8749999999999999%float /\
  (0.8749999999999999 * 100)%float = 87.49999999999999%float /\
  (87.49999999999999 <? 87.5)%float = true /\
  JsNumber.round 87.49999999999999%float = 87%float.
Proof. vm_compute. repeat split. Qed.

(** C9 on the code: with one pattern and one trend the formula gives
    [round 87.5 = 88], and [calculateConfidence] returns 87. *)
Lemma calculateConfidence_rounds_tie_down :
  calculateConfidence [tt] [tt] (@nil unit) (@nil unit) = 87%float /\
  exactConfidence 1 1 0 0 = 88%Z.
Proof. vm_compute. split; reflexivity. Qed.

(** With up to six findings of each type the computed score is an integer
    between 0 and 100, and it is the exact score or one below it. *)
Lemma calculateConfidence_near_exact (p t r o : nat) :
  p <= 6 -> t <= 6 -> r <= 6 -> o <= 6 -> nearExact p t r o = true.
Proof.
  intros Hp Ht Hr Ho.
  assert (Hall : nearExactUpTo 6 = true) by (vm_compute; reflexivity).
  assert (Hin : forall n, n <= 6 -> In n (upTo 6)).
  { intros n Hn. apply in_seq. lia. }
  unfold nearExactUpTo in Hall.
  rewrite forallb_forall in Hall. specialize (Hall p (Hin p Hp)).
  rewrite forallb_forall in Hall. specialize (Hall t (Hin t Ht)).
  rewrite forallb_forall in Hall. specialize (Hall r (Hin r Hr)).
  rewrite forallb_forall in Hall. exact (Hall o (Hin o Ho)).
Qed.

End ConfidenceFacts.

(** ** The analysis run *)

Module AnalysisFacts.
Import AnalysisModule Analysis Examples MonitorFacts.







(** The module state matters as well: the alert log is kept between runs, so
    a second run on the same module and the same batch returns the alert of
    the first run next to its own. *)
Lemma analyze_twice_accumulates_alerts :
  let first := analyze steadyEnv noStrategies frozenSources freshModule in
  let second := analyze steadyEnv noStrategies frozenSources first.2 in
  length (AnalysisResult.alerts first.1) = 1 /\
  length (AnalysisResult.alerts second.1) = 2.
Proof. vm_compute. split; reflexivity. Qed.


End AnalysisFacts.

(** ** Correlations *)

Module CorrelationFacts.
Import CorrelationAnalyzer.






End CorrelationFacts.

(** ** Further properties: cleaning and keyword extraction *)

Module TextFacts.
Import NewsModule.

Lemma chars_rev (acc s : string) :
  list_ascii_of_string (JsString.rev acc s)
  = reverse (list_ascii_of_string s) ++ list_ascii_of_string acc.
Proof.
  revert acc. induction s as [|c s IH]; intros acc; simpl; [reflexivity|].
  rewrite IH, reverse_cons, <- app_assoc. reflexivity.
Qed.

Lemma chars_trimStart_suffix (s : string) :
  exists dropped,
    list_ascii_of_string s = dropped ++ list_ascii_of_string (trimStart s)
    /\ Forall (fun c => isSpace c = true) dropped.
Proof.
  induction s as [|c s IH]; simpl.
  - exists []. split; [reflexivity | constructor].
  - destruct (isSpace c) eqn:E.
    + destruct IH as (dropped & -> & Hall). exists (c :: dropped).
      split; [reflexivity | now constructor].
    + exists []. split; [reflexivity | constructor].
Qed.

Lemma head_trimStart (s : string) (c : ascii) :
  head (list_ascii_of_string (trimStart s)) = Some c -> isSpace c = false.
Proof.
  induction s as [|x s IH]; simpl; [discriminate|].
  destruct (isSpace x) eqn:E; [exact IH|].
  simpl. intros [= <-]. exact E.
Qed.

Lemma Forall_chars_trimStart (P : ascii -> Prop) (s : string) :
  Forall P (list_ascii_of_string s) ->
  Forall P (list_ascii_of_string (trimStart s)).
Proof.
  intros H. destruct (chars_trimStart_suffix s) as (dropped & Heq & _).
  rewrite Heq in H. now apply Forall_app in H as [_ H].
Qed.

Lemma Forall_chars_trim (P : ascii -> Prop) (s : string) :
  Forall P (list_ascii_of_string s) ->
  Forall P (list_ascii_of_string (trim s)).
Proof.
  intros H. unfold trim. rewrite chars_rev, app_nil_r.
  apply Forall_reverse, Forall_chars_trimStart.
  rewrite chars_rev, app_nil_r.
  now apply Forall_reverse, Forall_chars_trimStart.
Qed.

Lemma trim_ends (s : string) (c : ascii) :
  (head (list_ascii_of_string (trim s)) = Some c -> isSpace c = false) /\
  (last (list_ascii_of_string (trim s)) = Some c -> isSpace c = false).
Proof.
  unfold trim. rewrite chars_rev, app_nil_r.
  rewrite head_reverse, last_reverse.
  set (u := trimStart s). set (v := JsString.rev EmptyString u).
  split; [|apply head_trimStart].
  intros Hlast.
  destruct (chars_trimStart_suffix v) as (dropped & Heq & _).
  assert (Hv : last (list_ascii_of_string v) = Some c).
  { rewrite Heq. destruct (list_ascii_of_string (trimStart v)) as [|y l];
      [discriminate|]. now rewrite last_app_cons. }
  subst v. rewrite chars_rev, app_nil_r, last_reverse in Hv.
  now apply (head_trimStart s).
Qed.

Lemma collapseSpaces_only_plain_spaces (inRun : bool) (s : string) :
  Forall (fun c => isSpace c = true -> c = " "%char)
         (list_ascii_of_string (collapseSpaces inRun s)).
Proof.
  revert inRun. induction s as [|c s IH]; intros inRun; simpl;
    [constructor|].
  destruct (isSpace c) eqn:E.
  - destruct inRun; [apply IH|]. simpl. constructor; [reflexivity | apply IH].
  - simpl. constructor; [congruence | apply IH].
Qed.

Lemma stripNonAscii_spec (P : ascii -> Prop) (s : string) :
  Forall P (list_ascii_of_string s) ->
  Forall (fun c => nat_of_ascii c <= 127 /\ P c)
         (list_ascii_of_string (stripNonAscii s)).
Proof.
  induction s as [|c s IH]; simpl; [constructor|].
  intros H. inversion H as [|? ? Hc Hs]; subst.
  destruct (Nat.leb_spec (nat_of_ascii c) 127).
  - simpl. constructor; [tauto | now apply IH].
  - now apply IH.
Qed.

(** X1: [cleanText]: the cleaned text consists of ASCII code units only, its
    only white space is the plain space, and it neither starts nor ends
    with white space. *)
Theorem cleanText_ascii_and_trimmed (text : string) :
  let out := list_ascii_of_string (cleanText text) in
  Forall (fun c => nat_of_ascii c <= 127 /\
                   (isSpace c = true -> c = " "%char)) out /\
  (forall c, head out = Some c -> isSpace c = false) /\
  (forall c, last out = Some c -> isSpace c = false).
Proof.
  intros out. subst out. unfold cleanText. split; [|split].
  - apply Forall_chars_trim, stripNonAscii_spec,
      collapseSpaces_only_plain_spaces.
  - intros c. apply trim_ends.
  - intros c. apply trim_ends.
Qed.

Lemma cleanText_ascii_and_trimmed_witness :
  Forall (fun c => nat_of_ascii c <= 127 /\
                   (isSpace c = true -> c = " "%char))
         (list_ascii_of_string (cleanText "  Markets   fall  ")).
Proof.
  exact (proj1 (cleanText_ascii_and_trimmed "  Markets   fall  ")).
Defined.

End TextFacts.

Module ExtractionFacts.
Import NewsModule Examples MoreExamples NewsModuleFacts.

Lemma collectIncluded_filter (text : string) (kws : list string) :
  collectIncluded text kws = List.filter (includes text) kws.
Proof.
  induction kws as [|k kws IH]; simpl; [reflexivity|].
  now rewrite IH.
Qed.

Lemma elem_of_collectIncluded (text : string) (kws : list string)
    (keyword : string) :
  keyword ∈ collectIncluded text kws
  <-> keyword ∈ kws /\ includes text keyword = true.
Proof.
  rewrite collectIncluded_filter, !list_elem_of_In, filter_In. reflexivity.
Qed.

Lemma collectIncluded_sublist (text : string) (kws : list string) :
  sublist (collectIncluded text kws) kws.
Proof.
  induction kws as [|k kws IH]; simpl; [constructor|].
  destruct (includes text k); now constructor.
Qed.

Lemma extractKeywords_keywordText (item : RssItem) :
  extractKeywords item = collectIncluded (keywordText item) commonKeywords.
Proof. reflexivity. Qed.

(** X2: [extractKeywords]: the keywords of an item are exactly the common
    keywords that occur in its title, snippet or content, in the order of
    the list of common keywords and without repetition. *)
Theorem extractKeywords_exactly_the_common_keywords_present (item : RssItem) :
  (forall keyword,
      keyword ∈ extractKeywords item
      <-> keyword ∈ commonKeywords /\
          includes (keywordText item) keyword = true) /\
  sublist (extractKeywords item) commonKeywords /\
  NoDup (extractKeywords item) /\
  length (extractKeywords item) <= 9.
Proof.
  rewrite extractKeywords_keywordText.
  assert (Hsub := collectIncluded_sublist (keywordText item) commonKeywords).
  split; [|split; [exact Hsub|split]].
  - intros k. apply elem_of_collectIncluded.
  - refine (sublist_NoDup _ _ _ Hsub).
    apply (bool_decide_unpack _). vm_compute. exact I.
  - apply sublist_length in Hsub. exact Hsub.
Qed.

Lemma extractKeywords_exactly_the_common_keywords_present_witness :
  "deal" ∈ extractKeywords crisisItem.
Proof.
  apply (proj1 (extractKeywords_exactly_the_common_keywords_present
                  crisisItem)).
  split; [unfold commonKeywords; repeat constructor|].
  vm_compute. reflexivity.
Defined.

(** The text the level is decided on opens the text the keywords are taken
    from. *)
Lemma alertText_starts_keywordText (item : RssItem) :
  exists rest, keywordText item = alertText item +:+ rest.
Proof.
  unfold keywordText, alertText.
  exists (toLowerCase (" " +:+ orElse (rss_content item) EmptyString)).
  rewrite <- toLowerCase_app, !append_assoc. reflexivity.
Qed.

(** X3: [detectAlertLevel] and [extractKeywords] agree: a common keyword that
    the level scan finds in title or snippet is among the keywords of the
    item. *)
Theorem scanned_common_keyword_is_extracted (item : RssItem)
    (keyword : string) :
  keyword ∈ commonKeywords ->
  includes (alertText item) keyword = true ->
  keyword ∈ extractKeywords item.
Proof.
  intros Hk Hin. rewrite extractKeywords_keywordText.
  apply elem_of_collectIncluded. split; [exact Hk|].
  destruct (alertText_starts_keywordText item) as (rest & ->).
  now apply includes_app_l.
Qed.

Lemma scanned_common_keyword_is_extracted_witness :
  "crisis" ∈ extractKeywords crisisItem.
Proof.
  apply scanned_common_keyword_is_extracted.
  - apply (bool_decide_unpack _). vm_compute. exact I.
  - vm_compute. reflexivity.
Defined.

Lemma firstRegion_None (text : string) (rs : list (string * list string)) :
  firstRegion text rs = None
  <-> Forall (fun entry =>
                anyIncluded text (map toLowerCase entry.2) = false) rs.
Proof.
  induction rs as [|[r kws] rs IH]; simpl.
  - split; [constructor | reflexivity].
  - destruct (anyIncluded text (map toLowerCase kws)) eqn:E.
    + split; [discriminate|]. intros H. inversion H; simpl in *. congruence.
    + rewrite IH. split.
      * intros H. now constructor.
      * intros H. now inversion H.
Qed.

Lemma firstRegion_Some (text : string) (rs : list (string * list string))
    (region : string) :
  firstRegion text rs = Some region ->
  exists earlier kws later,
    rs = earlier ++ (region, kws) :: later /\
    anyIncluded text (map toLowerCase kws) = true /\
    Forall (fun entry =>
              anyIncluded text (map toLowerCase entry.2) = false) earlier.
Proof.
  induction rs as [|[r kws] rs IH]; simpl; [discriminate|].
  destruct (anyIncluded text (map toLowerCase kws)) eqn:E.
  - intros [= <-]. exists [], kws, rs. repeat split; [exact E | constructor].
  - intros H. destruct (IH H) as (earlier & kws' & later & -> & Hhit & Hmiss).
    exists ((r, kws) :: earlier), kws', later. repeat split; [exact Hhit|].
    now constructor.
Qed.

Lemma anyIncluded_map_false (text : string) (kws : list string) :
  anyIncluded text (map toLowerCase kws) = false
  <-> forall k, k ∈ kws -> includes text (toLowerCase k) = false.
Proof.
  rewrite anyIncluded_false. split.
  - intros H k Hk. apply H. apply list_elem_of_In, in_map.
    now apply list_elem_of_In.
  - intros H k Hk. apply list_elem_of_In, in_map_iff in Hk as (k' & <- & Hk').
    apply H. now apply list_elem_of_In.
Qed.

(** X4: [detectRegion]: the region of an item is the first region of the table,
    in its order, one of whose keywords occurs in the lower-cased title and
    description; there is no region exactly when no keyword of any region
    occurs. *)
Theorem detectRegion_first_region_with_a_keyword (title description : string) :
  let text := toLowerCase (title +:+ " " +:+ description) in
  match detectRegion title description with
  | Some region =>
      exists earlier kws later,
        regions = earlier ++ (region, kws) :: later /\
        (exists k, k ∈ kws /\ includes text (toLowerCase k) = true) /\
        (forall entry k, entry ∈ earlier -> k ∈ entry.2 ->
                         includes text (toLowerCase k) = false)
  | None =>
      forall entry k, entry ∈ regions -> k ∈ entry.2 ->
                      includes text (toLowerCase k) = false
  end.
Proof.
  intros text. unfold detectRegion. fold text.
  destruct (firstRegion text regions) as [region|] eqn:E.
  - apply firstRegion_Some in E as (earlier & kws & later & Hsplit & Hhit & Hmiss).
    exists earlier, kws, later. split; [exact Hsplit|]. split.
    + apply anyIncluded_true in Hhit as (k & Hk & Hin).
      apply list_elem_of_In, in_map_iff in Hk as (k' & <- & Hk').
      exists k'. split; [now apply list_elem_of_In | exact Hin].
    + intros entry k He Hk. rewrite Forall_forall in Hmiss.
      specialize (Hmiss entry He). rewrite anyIncluded_map_false in Hmiss.
      now apply Hmiss.
  - apply firstRegion_None in E. intros entry k He Hk.
    rewrite Forall_forall in E. specialize (E entry He).
    rewrite anyIncluded_map_false in E. now apply E.
Qed.

Lemma detectRegion_first_region_with_a_keyword_witness :
  exists earlier kws later,
    regions = earlier ++ ("europe", kws) :: later /\
    (exists k,
        k ∈ kws /\
        includes (toLowerCase ("Talks in Berlin" +:+ " "
                               +:+ "Germany and France agree"))
                 (toLowerCase k) = true) /\
    (forall entry k,
        entry ∈ earlier -> k ∈ entry.2 ->
        includes (toLowerCase ("Talks in Berlin" +:+ " "
                               +:+ "Germany and France agree"))
                 (toLowerCase k) = false).
Proof.
  exact (detectRegion_first_region_with_a_keyword
           "Talks in Berlin" "Germany and France agree").
Defined.

(** X5: [detectRegion]: the keyword "us" of the first region is matched as a
    substring, so every item whose title or description contains the
    letters "us" anywhere is placed in north america, whatever else it
    mentions. *)
Theorem detectRegion_us_substring (title description : string) :
  includes (toLowerCase (title +:+ " " +:+ description)) "us" = true ->
  detectRegion title description = Some "north america".
Proof.
  intros H. unfold detectRegion, regions.
  cbn [firstRegion map]. change (toLowerCase "us") with "us".
  assert (Hany : anyIncluded (toLowerCase (title +:+ " " +:+ description))
                   [toLowerCase "usa"; "us"; toLowerCase "united states";
                    toLowerCase "canada"; toLowerCase "mexico"] = true).
  { apply anyIncluded_true. exists "us". split; [|exact H].
    right. left. }
  now rewrite Hany.
Qed.

Lemma detectRegion_us_substring_witness :
  detectRegion "Russia and Belarus hold talks" "Minsk hosts the meeting"
  = Some "north america".
Proof.
  apply detectRegion_us_substring. vm_compute. reflexivity.
Defined.

End ExtractionFacts.

Module RegionFacts.
Import NewsModule NewsFetch Examples MoreExamples ExtractionFacts.

Lemma firstRegion_name (text : string) (rs : list (string * list string))
    (region : string) :
  firstRegion text rs = Some region -> region ∈ (fst <$> rs).
Proof.
  intros H. apply firstRegion_Some in H as (earlier & kws & later & -> & _).
  rewrite fmap_app, fmap_cons. apply elem_of_app. right. left.
Qed.

(** X6: [detectRegion] and [detectRegionFromText] spell their regions
    differently: a region that [detectRegion] assigns, other than europe,
    asia and africa, is no key of the table of [detectRegionFromText], so
    asking for it by that name finds nothing in any text. *)
Theorem assigned_region_unknown_to_text_search (title description : string)
    (region text : string) :
  detectRegion title description = Some region ->
  region <> "europe" -> region <> "asia" -> region <> "africa" ->
  detectRegionFromText text region = Returned false.
Proof.
  intros Hd He Ha Hf. apply firstRegion_name in Hd.
  unfold regions in Hd. cbn [fmap list_fmap fst] in Hd.
  repeat (apply elem_of_cons in Hd as [->|Hd];
          [first [congruence | reflexivity]|]).
  inversion Hd.
Qed.

Lemma assigned_region_unknown_to_text_search_witness :
  detectRegionFromText "Talks between Israel and Iran" "middle east"
  = Returned false.
Proof.
  apply (assigned_region_unknown_to_text_search
           "Israel and Iran resume talks" "Mediators are hopeful").
  - vm_compute. reflexivity.
  - discriminate.
  - discriminate.
  - discriminate.
Defined.

Lemma detectRegionFromText_inherited (text region : string) :
  toLowerCase region = "constructor" \/ toLowerCase region = "__proto__" ->
  detectRegionFromText text region = TypeError.
Proof.
  intros [H|H]; unfold detectRegionFromText; rewrite H; reflexivity.
Qed.

(** X7: [getNewsByRegion]: asked for the region "constructor" or "__proto__"
    (in any casing), the filter throws a [TypeError] when there is a news
    item and the region field of no item contains that name. *)
Theorem filterRegion_throws_on_inherited_names (region : string)
    (items : list NewsItem.t) :
  toLowerCase region = "constructor" \/ toLowerCase region = "__proto__" ->
  items <> [] ->
  Forall (fun item =>
            forall r, NewsItem.region item = Some r ->
                      includes (toLowerCase r) (toLowerCase region) = false)
         items ->
  filterRegion region items = TypeError.
Proof.
  intros Hname Hne Hall. destruct items as [|item rest]; [congruence|].
  inversion Hall as [|? ? Hitem _]; subst. simpl.
  assert (Hin : inRegion region item = TypeError).
  { unfold inRegion. destruct (NewsItem.region item) as [r|].
    - rewrite (Hitem r eq_refl). now apply detectRegionFromText_inherited.
    - now apply detectRegionFromText_inherited. }
  now rewrite Hin.
Qed.

Lemma filterRegion_throws_on_inherited_names_witness :
  filterRegion "Constructor" tenItems = TypeError.
Proof.
  apply filterRegion_throws_on_inherited_names.
  - left. reflexivity.
  - discriminate.
  - apply Forall_forall. intros item Hitem r Hr.
    unfold tenItems in Hitem.
    apply elem_of_app in Hitem as [Hitem|Hitem];
      apply elem_of_replicate in Hitem as [-> _]; discriminate.
Defined.

Lemma filterRegion_sublist (region : string) (items kept : list NewsItem.t) :
  filterRegion region items = Returned kept -> sublist kept items.
Proof.
  revert kept. induction items as [|item rest IH]; simpl; intros kept H.
  - injection H as <-. constructor.
  - destruct (inRegion region item) as [keep|]; [|discriminate].
    destruct (filterRegion region rest) as [kept'|]; [|discriminate].
    injection H as <-. specialize (IH kept' eq_refl).
    destruct keep; now constructor.
Qed.

End RegionFacts.

Module EnhanceFacts.
Import NewsModule Examples MoreExamples KeywordFacts.

Lemma elem_of_uniqueFrom (seen a : list string) (x : string) :
  x ∈ uniqueFrom seen a <-> x ∈ a /\ x ∉ seen.
Proof.
  revert seen. induction a as [|y a IH]; intros seen; simpl.
  - split; [intros H; inversion H | intros [H _]; inversion H].
  - unfold arrayIncludes. destruct (bool_decide_reflect (y ∈ seen)) as [Hy|Hy].
    + rewrite IH, elem_of_cons. split; [tauto|].
      intros [[->|H] Hn]; [contradiction | tauto].
    + rewrite elem_of_cons, IH, !elem_of_cons. split.
      * intros [->|[H Hn]]; [tauto|]. split; [tauto|].
        intros Hs. apply Hn. now right.
      * intros [[->|H] Hn]; [tauto|].
        destruct (decide (x = y)) as [->|Hne]; [tauto|].
        right. split; [exact H|]. intros [?|?]; tauto.
Qed.

Lemma NoDup_uniqueFrom (seen a : list string) : NoDup (uniqueFrom seen a).
Proof.
  revert seen. induction a as [|y a IH]; intros seen; simpl; [constructor|].
  destruct (arrayIncludes seen y); [apply IH|].
  constructor; [|apply IH].
  rewrite elem_of_uniqueFrom. intros [_ Hn]. apply Hn. left.
Qed.

Lemma read_alloc_new (h : gmap nat (list string)) (v : list string) :
  Heap.read (Heap.alloc h v).2 (Heap.alloc h v).1 = v.
Proof. unfold Heap.alloc, Heap.read. simpl. now rewrite lookup_insert_eq. Qed.

Lemma alloc_new_ref (h : gmap nat (list string)) (v : list string) :
  (Heap.alloc h v).1 ∉ dom h.
Proof. unfold Heap.alloc. simpl. apply is_fresh. Qed.

Lemma dom_alloc (h : gmap nat (list string)) (v : list string) :
  dom (Heap.alloc h v).2 = {[ (Heap.alloc h v).1 ]} ∪ dom h.
Proof. unfold Heap.alloc. simpl. now rewrite dom_insert_L. Qed.

Lemma dom_push (h : gmap nat (list string)) (r : Ref) (x : string) :
  dom h ⊆ dom (Heap.push h r x).
Proof. unfold Heap.push. rewrite dom_insert. set_solver. Qed.

(** The array [enhanceKeywords] returns is the de-duplicated array of the
    item after the additions. *)
Lemma enhanceKeywords_returns (item : NewsItem.t) (h : gmap nat (list string)) :
  let old := Heap.read h (NewsItem.keywords item) in
  Heap.read (enhanceKeywords item h).2 (enhanceKeywords item h).1
  = unique (old ++ added item old).
Proof.
  intros old. unfold enhanceKeywords, added. cbv zeta. fold old.
  destruct (arrayIncludes old (NewsItem.category item)) eqn:Ec;
    destruct (NewsItem.region item) as [[|c r]|];
    rewrite ?read_push_same; fold old; rewrite ?app_nil_r;
    repeat match goal with
           | |- context [if ?b then _ else _] => destruct b
           end;
    rewrite read_alloc_new, ?read_push_same; fold old;
    rewrite ?app_nil_r, <- ?app_assoc; reflexivity.
Qed.

Lemma dom_enhanceKeywords (item : NewsItem.t) (h : gmap nat (list string)) :
  ((enhanceKeywords item h).1 ∉ dom h) /\
  (dom h ⊆ dom (enhanceKeywords item h).2) /\
  ((enhanceKeywords item h).1 ∈ dom (enhanceKeywords item h).2).
Proof.
  unfold enhanceKeywords. cbv zeta.
  match goal with
  | |- context [Heap.alloc ?h2 ?v] =>
      assert (Hsub : dom h ⊆ dom h2);
      [| pose proof (alloc_new_ref h2 v) as Hnew;
         pose proof (dom_alloc h2 v) as Hdom;
         set (res := Heap.alloc h2 v) in *; clearbody res;
         rewrite Hdom; set_solver ]
  end.
  destruct (arrayIncludes _ (NewsItem.category item));
    destruct (NewsItem.region item) as [[|c s]|];
    repeat match goal with
           | |- context [if ?b then _ else _] => destruct b
           end;
    try reflexivity;
    repeat (etransitivity; [|apply dom_push]); reflexivity.
Qed.

Lemma elem_of_added (item : NewsItem.t) (old : list string) (k : string) :
  k ∈ old ++ added item old
  <-> k ∈ old \/ k = NewsItem.category item \/
      (NewsItem.region item = Some k /\ k <> EmptyString).
Proof.
  unfold added, arrayIncludes. rewrite !elem_of_app.
  destruct (bool_decide_reflect (NewsItem.category item ∈ old)) as [Hc|Hc];
    destruct (NewsItem.region item) as [[|c r]|];
    repeat match goal with
           | |- context [bool_decide ?P] =>
               destruct (bool_decide_reflect P)
           end;
    rewrite ?app_nil_r in *; rewrite ?elem_of_cons, ?elem_of_nil;
    set_unfold; naive_solver.
Qed.

(** X8: [enhanceKeywords]: the returned keywords are the previous keywords, the
    category and the region (if the item has one), each once; the array is
    a new one. *)
Theorem enhanceKeywords_deduplicated_union (item : NewsItem.t)
    (h : gmap nat (list string)) :
  let out := Heap.read (enhanceKeywords item h).2 (enhanceKeywords item h).1 in
  NoDup out /\
  (forall k, k ∈ out
             <-> k ∈ Heap.read h (NewsItem.keywords item) \/
                 k = NewsItem.category item \/
                 (NewsItem.region item = Some k /\ k <> EmptyString)) /\
  ((enhanceKeywords item h).1 ∉ dom h).
Proof.
  intros out. subst out. rewrite enhanceKeywords_returns.
  split; [apply NoDup_uniqueFrom|]. split.
  - intros k. unfold unique. rewrite elem_of_uniqueFrom, elem_of_added.
    split; [tauto|]. intros H. split; [exact H | apply not_elem_of_nil].
  - apply dom_enhanceKeywords.
Qed.

Lemma enhanceKeywords_deduplicated_union_witness :
  NoDup (Heap.read (enhanceKeywords techItem techHeap).2
                   (enhanceKeywords techItem techHeap).1).
Proof.
  exact (proj1 (enhanceKeywords_deduplicated_union techItem techHeap)).
Defined.

Lemma added_nil_iff (item : NewsItem.t) (l : list string) :
  added item l = []
  <-> NewsItem.category item ∈ l /\
      (forall c r, NewsItem.region item = Some (String c r) -> String c r ∈ l).
Proof.
  unfold added, arrayIncludes.
  destruct (bool_decide_reflect (NewsItem.category item ∈ l)) as [Hc|Hc].
  - rewrite app_nil_r. simpl.
    destruct (NewsItem.region item) as [[|c r]|].
    + split; [|reflexivity]. intros _. split; [exact Hc | discriminate].
    + destruct (bool_decide_reflect (String c r ∈ l)) as [Hr|Hr].
      * split; [|reflexivity]. intros _. split; [exact Hc|].
        now intros ? ? [= <- <-].
      * split; [discriminate|]. intros [_ H]. exfalso. now apply Hr, H.
    + split; [|reflexivity]. intros _. split; [exact Hc | discriminate].
  - split; [discriminate | tauto].
Qed.

Lemma added_settles (item : NewsItem.t) (old : list string) :
  added item (old ++ added item old) = [].
Proof.
  apply added_nil_iff. split.
  - apply elem_of_added. tauto.
  - intros c r Hr. apply elem_of_added. right. right. split; [exact Hr|].
    discriminate.
Qed.

(** X9: [enhanceKeywords] a second time: once the category and the region are
    in the array of the item, another call adds nothing to that array and
    returns the same keywords again. *)
Theorem enhanceKeywords_twice (item : NewsItem.t) (h : gmap nat (list string)) :
  is_Some (h !! NewsItem.keywords item) ->
  let first := enhanceKeywords item h in
  let second := enhanceKeywords item first.2 in
  Heap.read second.2 (NewsItem.keywords item)
  = Heap.read first.2 (NewsItem.keywords item) /\
  Heap.read second.2 second.1 = Heap.read first.2 first.1.
Proof.
  intros Hr first second. subst first second.
  assert (Hr1 : is_Some ((enhanceKeywords item h).2 !! NewsItem.keywords item)).
  { apply elem_of_dom. apply dom_enhanceKeywords. now apply elem_of_dom. }
  rewrite (enhanceKeywords_writes_input item _ Hr1).
  rewrite !enhanceKeywords_returns.
  rewrite (enhanceKeywords_writes_input item h Hr).
  rewrite added_settles, app_nil_r. split; reflexivity.
Qed.

Lemma enhanceKeywords_twice_witness :
  Heap.read
    (enhanceKeywords techItem (enhanceKeywords techItem techHeap).2).2
    (NewsItem.keywords techItem)
  = ["tech"].
Proof.
  destruct (enhanceKeywords_twice techItem techHeap) as [H _].
  - exists []. reflexivity.
  - rewrite H. vm_compute. reflexivity.
Defined.

Lemma processNewsItems_cons (item : NewsItem.t) (rest : list NewsItem.t)
    (h : gmap nat (list string)) :
  processNewsItems (item :: rest) h
  = ((processNewsItem item h).1
       :: (processNewsItems rest (processNewsItem item h).2).1,
     (processNewsItems rest (processNewsItem item h).2).2).
Proof.
  cbn [processNewsItems]. destruct (processNewsItem item h) as [item' h1].
  cbn [fst snd]. now destruct (processNewsItems rest h1).
Qed.

Lemma processNewsItem_parts (item : NewsItem.t) (h : gmap nat (list string)) :
  (processNewsItem item h).2 = (enhanceKeywords item h).2 /\
  NewsItem.keywords (processNewsItem item h).1 = (enhanceKeywords item h).1.
Proof.
  unfold processNewsItem. now destruct (enhanceKeywords item h).
Qed.

Lemma dom_processNewsItems (items : list NewsItem.t)
    (h : gmap nat (list string)) :
  dom h ⊆ dom (processNewsItems items h).2.
Proof.
  revert h. induction items as [|item rest IH]; intros h; [reflexivity|].
  rewrite processNewsItems_cons. cbn [fst snd].
  etransitivity; [|apply IH].
  rewrite (proj1 (processNewsItem_parts item h)). apply dom_enhanceKeywords.
Qed.

(** X10: [processNewsItems] gives every returned item a keyword array of its
    own: the arrays are new (no array that existed before is reused) and
    no two returned items share one. *)
Theorem processNewsItems_new_arrays (items : list NewsItem.t)
    (h : gmap nat (list string)) :
  let out := (processNewsItems items h).1 in
  length out = length items /\
  NoDup (NewsItem.keywords <$> out) /\
  Forall (fun r => r ∉ dom h) (NewsItem.keywords <$> out) /\
  Forall (fun r => r ∈ dom (processNewsItems items h).2)
         (NewsItem.keywords <$> out).
Proof.
  intros out. subst out. revert h.
  induction items as [|item rest IH]; intros h.
  - simpl. repeat split; constructor.
  - rewrite processNewsItems_cons. cbn [fst snd].
    destruct (processNewsItem_parts item h) as [Hh Hk].
    destruct (dom_enhanceKeywords item h) as (Hnew & Hsub & Hin).
    destruct (IH (processNewsItem item h).2) as (Hlen & Hnd & Hfresh & Hdom).
    rewrite Hh in *. rewrite fmap_cons, Hk.
    split; [cbn [length]; now rewrite Hlen|]. split; [|split].
    + constructor; [|exact Hnd]. intros Hmem.
      rewrite Forall_forall in Hfresh. now apply (Hfresh _ Hmem).
    + constructor; [exact Hnew|]. eapply Forall_impl; [exact Hfresh|].
      intros r Hr Hd. apply Hr. now apply Hsub.
    + constructor; [|exact Hdom].
      now apply (dom_processNewsItems rest (enhanceKeywords item h).2).
Qed.

Lemma processNewsItems_fields (items : list NewsItem.t)
    (h : gmap nat (list string)) :
  let out := (processNewsItems items h).1 in
  (NewsItem.id <$> out) = (NewsItem.id <$> items) /\
  (NewsItem.url <$> out) = (NewsItem.url <$> items) /\
  (NewsItem.source <$> out) = (NewsItem.source <$> items) /\
  (NewsItem.category <$> out) = (NewsItem.category <$> items) /\
  (NewsItem.publishedAt <$> out) = (NewsItem.publishedAt <$> items) /\
  (NewsItem.region <$> out) = (NewsItem.region <$> items) /\
  (NewsItem.alertLevel <$> out) = (NewsItem.alertLevel <$> items) /\
  (NewsItem.content <$> out) = (NewsItem.content <$> items) /\
  (NewsItem.title <$> out)
  = ((fun item => cleanText (NewsItem.title item)) <$> items) /\
  (NewsItem.description <$> out)
  = ((fun item => cleanText (NewsItem.description item)) <$> items).
Proof.
  intros out. subst out. revert h.
  induction items as [|item rest IH]; intros h; [repeat split|].
  rewrite processNewsItems_cons. cbn [fst].
  specialize (IH (processNewsItem item h).2).
  destruct IH as (H1 & H2 & H3 & H4 & H5 & H6 & H7 & H8 & H9 & H10).
  rewrite !fmap_cons, H1, H2, H3, H4, H5, H6, H7, H8, H9, H10.
  unfold processNewsItem. destruct (enhanceKeywords item h).
  repeat split.
Qed.

(** X11: [processNewsItems] changes only title, description and keywords: the
    other fields of every item pass through, in the same order, and the
    texts are the cleaned texts. *)
Theorem processNewsItems_keeps_other_fields (items : list NewsItem.t)
    (h : gmap nat (list string)) :
  let out := (processNewsItems items h).1 in
  (NewsItem.id <$> out) = (NewsItem.id <$> items) /\
  (NewsItem.url <$> out) = (NewsItem.url <$> items) /\
  (NewsItem.source <$> out) = (NewsItem.source <$> items) /\
  (NewsItem.category <$> out) = (NewsItem.category <$> items) /\
  (NewsItem.publishedAt <$> out) = (NewsItem.publishedAt <$> items) /\
  (NewsItem.region <$> out) = (NewsItem.region <$> items) /\
  (NewsItem.alertLevel <$> out) = (NewsItem.alertLevel <$> items) /\
  (NewsItem.content <$> out) = (NewsItem.content <$> items) /\
  (NewsItem.title <$> out)
  = ((fun item => cleanText (NewsItem.title item)) <$> items) /\
  (NewsItem.description <$> out)
  = ((fun item => cleanText (NewsItem.description item)) <$> items).
Proof. exact (processNewsItems_fields items h). Qed.

End EnhanceFacts.

Module IdFacts.
Import NewsModule NewsFetch Examples MoreExamples.

(** Ten base64 digits stand for seven and a half bytes: the first ten
    digits are those of the first eight bytes. *)
Lemma base64_first_ten (bytes : list nat) :
  String.substring 0 10 (base64 bytes)
  = String.substring 0 10 (base64 (take 8 bytes)).
Proof.
  destruct bytes as [|a [|b [|c [|d [|e [|f [|g [|i [|j rest]]]]]]]]];
    reflexivity.
Qed.

Lemma generateId_text (item : RssItem) (randomText : string) :
  generateId item randomText
  = String.substring 0 10
      (base64 (utf8 (orElse (rss_link item)
                            (orElse (rss_title item) randomText)))).
Proof. reflexivity. Qed.

(** X12: [generateId] of [NewsModule]: two items whose links (or, without a
    link, titles) agree in their first eight bytes get the same id. *)
Theorem generateId_reads_eight_bytes (item1 item2 : RssItem)
    (random1 random2 : string) :
  take 8 (utf8 (orElse (rss_link item1) (orElse (rss_title item1) random1)))
  = take 8 (utf8 (orElse (rss_link item2) (orElse (rss_title item2) random2)))
  ->
  generateId item1 random1 = generateId item2 random2.
Proof.
  intros H. rewrite !generateId_text.
  rewrite base64_first_ten, H, <- base64_first_ten. reflexivity.
Qed.

Lemma generateId_reads_eight_bytes_witness :
  generateId warItem EmptyString = generateId crisisItem EmptyString.
Proof.
  apply generateId_reads_eight_bytes. vm_compute. reflexivity.
Defined.

Lemma utf8_app (a b : string) : utf8 (a +:+ b) = utf8 a ++ utf8 b.
Proof.
  induction a as [|c a IH]; [reflexivity|].
  rewrite append_cons. simpl. rewrite IH.
  destruct (nat_of_ascii c <? 128); reflexivity.
Qed.

(** X13: [generateId] of [NewsModule]: every item whose link starts with
    "https://" has the id "aHR0cHM6Ly". *)
Theorem generateId_https_links_collide (item : RssItem) (rest : string)
    (randomText : string) :
  rss_link item = Some ("https://" +:+ rest) ->
  generateId item randomText = "aHR0cHM6Ly".
Proof.
  intros H. rewrite generateId_text, H.
  change (orElse (Some ("https://" +:+ rest)) _) with ("https://" +:+ rest).
  rewrite base64_first_ten, utf8_app. reflexivity.
Qed.

Lemma generateId_https_links_collide_witness :
  generateId crisisItem "0.8171" = "aHR0cHM6Ly".
Proof.
  apply (generateId_https_links_collide crisisItem "example.org/banks").
  reflexivity.
Defined.

End IdFacts.

(** ** Further properties: sorting, fetching and the cache *)

Module SortFacts.
Import NewsFetch MoreExamples.

Section ByKey.

Context {A : Type}.
Variable key : A -> Z.

Lemma insertBy_perm (cmp : A -> A -> Z) (x : A) (l : list A) :
  insertBy cmp x l ≡ₚ x :: l.
Proof.
  induction l as [|y l IH]; simpl; [reflexivity|].
  destruct (cmp x y <=? 0)%Z; [reflexivity|].
  rewrite IH. apply Permutation_swap.
Qed.

Lemma sortBy_perm (cmp : A -> A -> Z) (l : list A) : sortBy cmp l ≡ₚ l.
Proof.
  induction l as [|x l IH]; simpl; [reflexivity|].
  now rewrite insertBy_perm, IH.
Qed.

Lemma insertBy_sorted (x : A) (l : list A) :
  StronglySorted (fun a b => (key b <= key a)%Z) l ->
  StronglySorted (fun a b => (key b <= key a)%Z) (insertBy (largerFirst key) x l).
Proof.
  induction l as [|y l IH]; intros Hs; simpl.
  - constructor; constructor.
  - inversion Hs as [|? ? Hl Hy]; subst. unfold largerFirst at 1.
    destruct (Z.leb_spec (key y - key x) 0).
    + constructor; [exact Hs|]. constructor; [lia|].
      eapply Forall_impl; [exact Hy|]. simpl. intros; lia.
    + constructor; [now apply IH|].
      rewrite insertBy_perm. constructor; [lia | exact Hy].
Qed.

Lemma sortBy_sorted (l : list A) :
  StronglySorted (fun a b => (key b <= key a)%Z) (sortBy (largerFirst key) l).
Proof.
  induction l as [|x l IH]; simpl; [constructor|].
  now apply insertBy_sorted.
Qed.

Lemma insertBy_ext (cmp cmp' : A -> A -> Z) (x : A) (l : list A) :
  (forall y, y ∈ l -> cmp x y = cmp' x y) ->
  insertBy cmp x l = insertBy cmp' x l.
Proof.
  induction l as [|y l IH]; intros H; simpl; [reflexivity|].
  rewrite (H y) by left. rewrite IH; [reflexivity|].
  intros z Hz. apply H. now right.
Qed.

Lemma sortBy_ext (cmp cmp' : A -> A -> Z) (l : list A) :
  (forall x y, x ∈ l -> y ∈ l -> cmp x y = cmp' x y) ->
  sortBy cmp l = sortBy cmp' l.
Proof.
  induction l as [|x l IH]; intros H; simpl; [reflexivity|].
  rewrite IH by (intros; apply H; now right).
  apply insertBy_ext. intros y Hy. apply H; [left|].
  right. now rewrite <- (sortBy_perm cmp' l).
Qed.

Lemma take_sorted (R : A -> A -> Prop) (n : nat) (l : list A) :
  StronglySorted R l -> StronglySorted R (take n l).
Proof.
  revert n. induction l as [|x l IH]; intros n Hs;
    [destruct n; constructor|].
  destruct n; [constructor|]. simpl.
  inversion Hs as [|? ? Hl Hx]; subst. constructor; [now apply IH|].
  apply Forall_take. exact Hx.
Qed.

End ByKey.

End SortFacts.

Module FetchFacts.
Import NewsModule NewsFetch Examples MoreExamples NewsModuleFacts EnhanceFacts.
Import SortFacts.

Section WithWorld.

Variable world : World.

Lemma SameCache_refl (s : State) : SameCache s s.
Proof. split; reflexivity. Qed.

Lemma SameCache_trans (s1 s2 s3 : State) :
  SameCache s1 s2 -> SameCache s2 s3 -> SameCache s1 s3.
Proof. intros [? ?] [? ?]. split; congruence. Qed.

Lemma fetchItem_spec (feed : Feed) (p : ParsedItem) (s : State) :
  SameCache s (fetchItem world feed p s).2 /\
  requests (fetchItem world feed p s).2 = requests s /\
  NewsItem.source (fetchItem world feed p s).1 = feedName feed /\
  NewsItem.category (fetchItem world feed p s).1 = feedCategory feed /\
  NewsItem.alertLevel (fetchItem world feed p s).1 <> critical.
Proof.
  unfold fetchItem, newItemId, readClock, toNewsItem, SameCache.
  destruct (truthy (rss_link (parsed p)) || truthy (rss_title (parsed p)));
    destruct (pubDate p); simpl;
    repeat split; apply detectAlertLevel_never_critical.
Qed.

Lemma fetchItems_cons (feed : Feed) (p : ParsedItem) (ps : list ParsedItem)
    (s : State) :
  fetchItems world feed (p :: ps) s
  = ((fetchItem world feed p s).1
       :: (fetchItems world feed ps (fetchItem world feed p s).2).1,
     (fetchItems world feed ps (fetchItem world feed p s).2).2).
Proof.
  cbn [fetchItems]. destruct (fetchItem world feed p s) as [item s1].
  cbn [fst snd]. now destruct (fetchItems world feed ps s1).
Qed.

Lemma fetchItems_spec (feed : Feed) (ps : list ParsedItem) (s : State) :
  SameCache s (fetchItems world feed ps s).2 /\
  requests (fetchItems world feed ps s).2 = requests s /\
  length (fetchItems world feed ps s).1 = length ps /\
  Forall (fun item => NewsItem.source item = feedName feed /\
                      NewsItem.category item = feedCategory feed /\
                      NewsItem.alertLevel item <> critical)
         (fetchItems world feed ps s).1.
Proof.
  revert s. induction ps as [|p ps IH]; intros s.
  - simpl. repeat split; constructor.
  - rewrite fetchItems_cons. cbn [fst snd].
    destruct (fetchItem_spec feed p s) as (Hc & Hr & Hs & Hcat & Hl).
    destruct (IH (fetchItem world feed p s).2) as (Hc' & Hr' & Hlen & Hall).
    split; [eapply SameCache_trans; eassumption|].
    split; [congruence|]. split; [cbn [length]; now rewrite Hlen|].
    constructor; [tauto | exact Hall].
Qed.

Lemma fetchFeed_spec (feed : Feed) (s : State) :
  SameCache s (fetchFeed world feed s).2 /\
  requests (fetchFeed world feed s).2 = S (requests s) /\
  length (fetchFeed world feed s).1 = length (answer world (requests s) feed) /\
  Forall (fun item => NewsItem.source item = feedName feed /\
                      NewsItem.category item = feedCategory feed /\
                      NewsItem.alertLevel item <> critical)
         (fetchFeed world feed s).1.
Proof.
  unfold fetchFeed, answer.
  destruct (parseURL world (requests s) (feedUrl feed)) as [ps|].
  - match goal with
    | |- context [fetchItems world feed ps ?s1] =>
        destruct (fetchItems_spec feed ps s1) as (Hc & Hr & Hlen & Hall)
    end.
    simpl in *. repeat split; try assumption; apply Hc.
  - simpl. repeat split; constructor.
Qed.

Lemma fetchFeeds_cons (feed : Feed) (feeds : list Feed) (s : State) :
  fetchFeeds world (feed :: feeds) s
  = ((fetchFeed world feed s).1
       ++ (fetchFeeds world feeds (fetchFeed world feed s).2).1,
     (fetchFeeds world feeds (fetchFeed world feed s).2).2).
Proof.
  cbn [fetchFeeds]. destruct (fetchFeed world feed s) as [items s1].
  cbn [fst snd]. now destruct (fetchFeeds world feeds s1).
Qed.

Lemma fetchFeeds_spec (feeds : list Feed) (s : State) :
  SameCache s (fetchFeeds world feeds s).2 /\
  requests (fetchFeeds world feeds s).2 = requests s + length feeds /\
  length (fetchFeeds world feeds s).1
  = sum_list (imap (fun i feed => length (answer world (requests s + i) feed))
                   feeds) /\
  Forall (fun item =>
            exists feed, feed ∈ feeds /\
                         NewsItem.source item = feedName feed /\
                         NewsItem.category item = feedCategory feed)
         (fetchFeeds world feeds s).1 /\
  NoCritical (fetchFeeds world feeds s).1.
Proof.
  revert s. induction feeds as [|feed feeds IH]; intros s.
  - simpl. repeat split; [lia | constructor | constructor].
  - rewrite fetchFeeds_cons. cbn [fst snd].
    destruct (fetchFeed_spec feed s) as (Hc & Hr & Hlen & Hall).
    destruct (IH (fetchFeed world feed s).2)
      as (Hc' & Hr' & Hlen' & Hall' & Hnc').
    split; [eapply SameCache_trans; eassumption|].
    split; [rewrite Hr', Hr; cbn [length]; lia|].
    split; [|split].
    + rewrite length_app, Hlen, Hlen'. cbn [imap sum_list].
      rewrite Nat.add_0_r, Hr. f_equal. f_equal.
      apply imap_ext. intros i x _. cbn.
      now replace (requests s + S i) with (S (requests s + i)) by lia.
    + apply Forall_app. split.
      * eapply Forall_impl; [exact Hall|]. intros item (Hs & Hcat & _).
        exists feed. split; [left | tauto].
      * eapply Forall_impl; [exact Hall'|]. intros item (f & Hf & Hrest).
        exists f. split; [now right | exact Hrest].
    + apply Forall_app. split; [|exact Hnc'].
      eapply Forall_impl; [exact Hall|]. intros item H. apply H.
Qed.

(** X14: [fetchFromRSS]: every feed of the category is requested once; a feed
    whose request fails is skipped and the items of the other feeds are
    all kept; every item carries the name and the category of its own
    feed; the cache is not touched. *)
Theorem fetchFromRSS_skips_failed_feeds (category : string) (s : State) :
  let feeds := getFeedsByCategory world category in
  let result := fetchFromRSS world category s in
  requests result.2 = requests s + length feeds /\
  length result.1
  = sum_list (imap (fun i feed =>
                      length (default [] (parseURL world (requests s + i)
                                                   (feedUrl feed))))
                   feeds) /\
  Forall (fun item =>
            exists feed, feed ∈ feeds /\
                         NewsItem.source item = feedName feed /\
                         NewsItem.category item = feedCategory feed)
         result.1 /\
  cache result.2 = cache s /\
  lastFetchTime result.2 = lastFetchTime s.
Proof.
  intros feeds result. subst result. unfold fetchFromRSS. fold feeds.
  destruct (fetchFeeds_spec feeds s) as ([Hc Ht] & Hr & Hlen & Hall & _).
  repeat split; assumption.
Qed.

End WithWorld.

End FetchFacts.

Module CacheFacts.
Import NewsModule NewsFetch Examples MoreExamples NewsModuleFacts EnhanceFacts.
Import SortFacts FetchFacts.

Section WithWorld.

Variable world : World.

Lemma NoCritical_levels (items : list NewsItem.t) :
  NoCritical items
  <-> Forall (fun level => level <> critical) (NewsItem.alertLevel <$> items).
Proof. unfold NoCritical. now rewrite Forall_fmap. Qed.

Lemma sortBy_newestFirst (items : list NewsItem.t) :
  NewestFirst (sortBy newestFirst items).
Proof. apply (sortBy_sorted NewsItem.publishedAt). Qed.

Lemma refetch_spec (category : string) (limit : nat) (s : State) :
  exists sorted fetched,
    (refetch world category limit s).1 = take limit sorted /\
    cache (refetch world category limit s).2
    = <[cacheKey category limit := sorted]> (cache s) /\
    lastFetchTime (refetch world category limit s).2 = Some fetched /\
    requests (refetch world category limit s).2
    = requests s + length (getFeedsByCategory world category) /\
    NewestFirst sorted /\ NoCritical sorted.
Proof.
  unfold refetch, fetchFromGDELT, fetchFromRSS. cbn [app].
  destruct (fetchFeeds_spec world (getFeedsByCategory world category) s)
    as ([Hc Ht] & Hr & _ & _ & Hnc).
  destruct (fetchFeeds world (getFeedsByCategory world category) s)
    as [rssItems s1]. cbn [fst snd] in *.
  pose proof (processNewsItems_fields rssItems (arrays s1))
    as (_ & _ & _ & _ & _ & _ & Hlevels & _).
  destruct (processNewsItems rssItems (arrays s1)) as [processed h].
  cbn [fst snd] in *. unfold readClock. cbn.
  eexists _, _. split; [reflexivity|]. split; [now rewrite Hc|].
  split; [reflexivity|]. split; [exact Hr|].
  split; [apply sortBy_newestFirst|].
  unfold NoCritical. rewrite sortBy_perm.
  apply NoCritical_levels. rewrite Hlevels. now apply NoCritical_levels.
Qed.

Lemma isCacheValid_spec (s : State) :
  SameCache s (isCacheValid world s).2 /\
  requests (isCacheValid world s).2 = requests s /\
  ((isCacheValid world s).1 = true
   <-> exists fetched,
         lastFetchTime s = Some fetched /\
         (timeAt world (clockReads s) - fetched < 5 * 60 * 1000)%Z).
Proof.
  unfold isCacheValid, readClock, SameCache.
  destruct (lastFetchTime s) as [t|] eqn:E; cbn [fst snd].
  - split; [split; first [reflexivity | exact E | now rewrite E]|].
    split; [reflexivity|]. split.
    + intros H. exists t. split; [reflexivity|]. now apply Z.ltb_lt.
    + intros (t' & Ht' & H). injection Ht' as <-. now apply Z.ltb_lt.
  - split; [split; first [reflexivity | exact E | now rewrite E]|].
    split; [reflexivity|]. split.
    + discriminate.
    + now intros (t' & Ht & _).
Qed.

(** After any call, the list returned is the start of what the cache now
    holds under the key of the call, and the time of a fetch is known. *)
Lemma getNews_spec (category : string) (limit : nat) (s : State) :
  CacheOrdered s ->
  exists items fetched,
    (getNews world category limit s).1 = take limit items /\
    cache (getNews world category limit s).2 !! cacheKey category limit
    = Some items /\
    lastFetchTime (getNews world category limit s).2 = Some fetched /\
    CacheOrdered (getNews world category limit s).2 /\
    (forall key, key <> cacheKey category limit ->
                 cache (getNews world category limit s).2 !! key
                 = cache s !! key).
Proof.
  intros Hinv. unfold getNews. fold (cacheKey category limit).
  assert (Hre : forall s0, cache s0 = cache s ->
    exists items fetched,
      (refetch world category limit s0).1 = take limit items /\
      cache (refetch world category limit s0).2 !! cacheKey category limit
      = Some items /\
      lastFetchTime (refetch world category limit s0).2 = Some fetched /\
      CacheOrdered (refetch world category limit s0).2 /\
      (forall key, key <> cacheKey category limit ->
                   cache (refetch world category limit s0).2 !! key
                   = cache s !! key)).
  { intros s0 Hs0.
    destruct (refetch_spec category limit s0)
      as (sorted & fetched & Hout & Hcache & Htime & _ & Hsorted & Hnc).
    exists sorted, fetched. split; [exact Hout|].
    split; [now rewrite Hcache, lookup_insert_eq|].
    split; [exact Htime|]. split.
    - intros key items. rewrite Hcache, Hs0.
      destruct (decide (key = cacheKey category limit)) as [->|Hne].
      + rewrite lookup_insert_eq. intros [= <-]. now split.
      + rewrite lookup_insert_ne by congruence. apply Hinv.
    - intros key Hne. rewrite Hcache, Hs0.
      now rewrite lookup_insert_ne by congruence. }
  destruct (cache s !! cacheKey category limit) as [cached|] eqn:Ecached;
    [|now apply Hre].
  destruct (isCacheValid_spec s) as ([Hc Ht] & _ & Hvalid).
  destruct (isCacheValid world s) as [valid s1]. cbn [fst snd] in *.
  destruct valid; [|now apply Hre].
  destruct (proj1 Hvalid eq_refl) as (fetched & Hf & _).
  exists cached, fetched. cbn [fst snd].
  split; [reflexivity|]. split; [now rewrite Hc|].
  split; [congruence|]. split.
  - intros key items. rewrite Hc. apply Hinv.
  - intros key _. now rewrite Hc.
Qed.


Lemma CacheOrdered_newModule : CacheOrdered newModule.
Proof. intros key items H. unfold newModule in H. simpl in H. inversion H. Qed.

Lemma getNews_hit (category : string) (limit : nat) (s : State)
    (items : list NewsItem.t) (fetched : Date) :
  cache s !! cacheKey category limit = Some items ->
  lastFetchTime s = Some fetched ->
  (timeAt world (clockReads s) - fetched < 5 * 60 * 1000)%Z ->
  getNews world category limit s = (take limit items, (readClock world s).2).
Proof.
  intros Hc Ht Hfresh. unfold getNews. fold (cacheKey category limit).
  rewrite Hc. unfold isCacheValid. rewrite Ht.
  destruct (readClock world s) as [now s1] eqn:E.
  unfold readClock in E. injection E as <- <-.
  now rewrite (proj2 (Z.ltb_lt _ _) Hfresh).
Qed.

(** X16: [getNews] twice: when the clock, read at the second call, is less than
    five minutes past the time of the last fetch, the second call returns
    the list of the first and requests no feed. *)
Theorem getNews_again_is_served_from_cache (category : string) (limit : nat)
    (s : State) (fetched : Date) :
  CacheOrdered s ->
  let first := getNews world category limit s in
  lastFetchTime first.2 = Some fetched ->
  (timeAt world (clockReads first.2) - fetched < 5 * 60 * 1000)%Z ->
  let second := getNews world category limit first.2 in
  second.1 = first.1 /\
  requests second.2 = requests first.2 /\
  cache second.2 = cache first.2.
Proof.
  intros Hinv first Ht Hfresh second. subst first second.
  destruct (getNews_spec category limit s Hinv)
    as (items & fetched' & Hout & Hcache & _).
  rewrite (getNews_hit _ _ _ items fetched Hcache Ht Hfresh).
  rewrite Hout. repeat split.
Qed.

(** X17: the five minutes are counted from the last fetch of any key: a list
    cached under one key, however long ago, is served again without a
    request when another key was fetched less than five minutes before. *)
Theorem getNews_stale_entry_revived_by_other_fetch
    (categoryA categoryB : string) (limitA limitB : nat) (s : State)
    (old : list NewsItem.t) (fetched : Date) :
  CacheOrdered s ->
  cacheKey categoryA limitA <> cacheKey categoryB limitB ->
  cache s !! cacheKey categoryA limitA = Some old ->
  cache s !! cacheKey categoryB limitB = None ->
  let other := getNews world categoryB limitB s in
  lastFetchTime other.2 = Some fetched ->
  (timeAt world (clockReads other.2) - fetched < 5 * 60 * 1000)%Z ->
  let again := getNews world categoryA limitA other.2 in
  again.1 = take limitA old /\
  requests again.2 = requests other.2.
Proof.
  intros Hinv Hkeys Hold Hmiss other Ht Hfresh again. subst other again.
  destruct (getNews_spec categoryB limitB s Hinv)
    as (items & fetched' & _ & _ & _ & _ & Hothers).
  assert (HA : cache (getNews world categoryB limitB s).2
               !! cacheKey categoryA limitA = Some old)
    by now rewrite Hothers.
  rewrite (getNews_hit _ _ _ old fetched HA Ht Hfresh). split; reflexivity.
Qed.

(** X18: [getAlerts]: the list returned has at most [limit] items, none of
    level none, and is ordered by severity, the most severe first; every
    item in it is one of the news items of the category all. *)
Theorem getAlerts_most_severe_first (limit : nat) (s : State) :
  CacheOrdered s ->
  let result := getAlerts world limit s in
  length result.1 <= limit /\
  Forall (fun item => NewsItem.alertLevel item <> none) result.1 /\
  MostSevereFirst result.1 /\
  Forall (fun item => item ∈ (getNews world "all" 50 s).1) result.1 /\
  result.2 = (getNews world "all" 50 s).2.
Proof.
  intros Hinv result. subst result. unfold getAlerts.
  destruct (getNews_spec "all" 50 s Hinv)
    as (items & fetched & Hout & Hcache & _ & Hinv' & _).
  assert (Hnc : NoCritical (getNews world "all" 50 s).1).
  { rewrite Hout. apply Forall_take. now apply (Hinv' _ _ Hcache). }
  destruct (getNews world "all" 50 s) as [allNews s1]. cbn [fst snd] in *.
  set (alerts := List.filter _ allNews).
  assert (Hin : forall item, item ∈ alerts ->
                  item ∈ allNews /\ NewsItem.alertLevel item <> none).
  { intros item Hitem. apply list_elem_of_In, filter_In in Hitem as [H1 H2].
    split; [now apply list_elem_of_In|].
    apply negb_true_iff, bool_decide_eq_false in H2. exact H2. }
  assert (Hsort : sortBy mostSevereFirst alerts
                  = sortBy (largerFirst
                              (fun item => severity (NewsItem.alertLevel item)))
                           alerts).
  { apply sortBy_ext. intros x y Hx Hy.
    apply Hin in Hx as [Hx _]. apply Hin in Hy as [Hy _].
    unfold NoCritical in Hnc. rewrite Forall_forall in Hnc.
    pose proof (Hnc x Hx). pose proof (Hnc y Hy).
    unfold mostSevereFirst, largerFirst, severity.
    destruct (NewsItem.alertLevel x), (NewsItem.alertLevel y);
      try congruence; reflexivity. }
  split; [rewrite length_take; lia|].
  split; [|split; [|split; [|reflexivity]]].
  - apply Forall_take, Forall_forall. intros item Hitem.
    rewrite sortBy_perm in Hitem. now apply Hin.
  - apply take_sorted. rewrite Hsort.
    apply (sortBy_sorted (fun item => severity (NewsItem.alertLevel item))).
  - apply Forall_take, Forall_forall. intros item Hitem.
    rewrite sortBy_perm in Hitem. now apply Hin.
Qed.

End WithWorld.


Lemma getNews_again_is_served_from_cache_witness :
  (getNews demoWorld "all" 5 (getNews demoWorld "all" 5 newModule).2).1
  = (getNews demoWorld "all" 5 newModule).1.
Proof.
  apply (getNews_again_is_served_from_cache demoWorld "all" 5 newModule
           1700000000000%Z CacheOrdered_newModule).
  - vm_compute. reflexivity.
  - vm_compute. reflexivity.
Defined.

Lemma getNews_stale_entry_revived_by_other_fetch_witness :
  exists old,
    cache (getNews demoWorld "all" 5 newModule).2 !! cacheKey "all" 5
    = Some old /\
    (getNews demoWorld "all" 5
       (getNews demoWorld "finance" 3
          (getNews demoWorld "all" 5 newModule).2).2).1
    = take 5 old.
Proof.
  set (s := (getNews demoWorld "all" 5 newModule).2).
  destruct (getNews_spec demoWorld "all" 5 newModule CacheOrdered_newModule)
    as (old & _ & _ & Hold & _ & Hinv & _).
  exists old. split; [exact Hold|].
  apply (getNews_stale_entry_revived_by_other_fetch demoWorld
           "all" "finance" 5 3 s old 1700000001000%Z Hinv).
  - vm_compute. discriminate.
  - exact Hold.
  - vm_compute. reflexivity.
  - vm_compute. reflexivity.
  - vm_compute. reflexivity.
Defined.

Lemma getAlerts_most_severe_first_witness :
  MostSevereFirst (getAlerts demoWorld 5 newModule).1.
Proof.
  apply (getAlerts_most_severe_first demoWorld 5 newModule
           CacheOrdered_newModule).
Defined.

End CacheFacts.

Module SessionFacts.
Import AnalysisModule SituationMonitorSkill Examples MoreExamples MonitorFacts.

Lemma addMonitor_unfold (env : Oracle) (query : string) (s : Registry) :
  addMonitor env query s
  = ("Monitor added successfully (ID: " +:+ nextId env s +:+ "). Query: "
     +:+ quote +:+ query +:+ quote,
     {| activeMonitors :=
          activeMonitors s
          ++ [ {| Monitor.id := nextId env s; Monitor.query := query;
                  Monitor.createdAt := clock env (ticks s);
                  Monitor.lastChecked := clock env (S (ticks s));
                  Monitor.isActive := true;
                  Monitor.alertThreshold := 0.7%float;
                  Monitor.checkInterval := 3600%Z;
                  Monitor.alertCount := 0 |} ];
        alerts := alerts s; ticks := S (S (ticks s));
        draws := S (draws s) |}).
Proof. reflexivity. Qed.

Lemma removeMonitor_registry (monitorId : string) (s : Registry) :
  activeMonitors (removeMonitor monitorId s).2
  = filter (fun m => Monitor.id m <> monitorId) (activeMonitors s) /\
  alerts (removeMonitor monitorId s).2 = alerts s.
Proof.
  unfold removeMonitor, bind, getMonitors, setMonitors, saveMonitors, ret.
  destruct (_ <? _); split; reflexivity.
Qed.

Lemma removeMonitor_reply (monitorId : string) (s : Registry) :
  monitorId ∈ (Monitor.id <$> activeMonitors s) ->
  (removeMonitor monitorId s).1
  = "Monitor " +:+ monitorId +:+ " removed successfully.".
Proof.
  intros Hin. apply list_elem_of_fmap in Hin as (m & -> & Hin).
  unfold removeMonitor, bind, getMonitors, setMonitors, saveMonitors, ret.
  assert (Hlt : length (filter (fun m' => Monitor.id m' <> Monitor.id m)
                               (activeMonitors s))
                < length (activeMonitors s)).
  { apply (length_filter_lt _ _ m); [exact Hin|]. intros H. now apply H. }
  apply Nat.ltb_lt in Hlt. now rewrite Hlt.
Qed.

Lemma filter_unused (monitorId : string) (ms : list Monitor.t) :
  monitorId ∉ (Monitor.id <$> ms) ->
  filter (fun m => Monitor.id m <> monitorId) ms = ms.
Proof.
  induction ms as [|m ms IH]; [reflexivity|]. cbn [fmap list_fmap].
  rewrite not_elem_of_cons. intros [Hm Hms].
  rewrite filter_cons_True by congruence. now rewrite IH.
Qed.

(** X19: [addMonitor] then [removeMonitor] of the id just given: the new monitor
    is removed again, together with every older monitor of the same id, for
    [addMonitor] does not look whether the id it draws is in use. When the
    id was not in use, the monitor list is what it was before. *)
Theorem addMonitor_then_removeMonitor (env : Oracle) (query : string)
    (s : Registry) :
  let newId := nextId env s in
  let added := (addMonitor env query s).2 in
  let removed := removeMonitor newId added in
  removed.1 = "Monitor " +:+ newId +:+ " removed successfully." /\
  activeMonitors removed.2
  = filter (fun m => Monitor.id m <> newId) (activeMonitors s) /\
  alerts removed.2 = alerts s /\
  (UnusedId newId s -> activeMonitors removed.2 = activeMonitors s).
Proof.
  intros newId added removed. subst removed added.
  rewrite addMonitor_unfold. cbn [snd].
  match goal with |- context [removeMonitor _ ?st] => set (s1 := st) end.
  destruct (removeMonitor_registry newId s1) as [Hms Halerts].
  assert (Hfilter : activeMonitors (removeMonitor newId s1).2
                    = filter (fun m => Monitor.id m <> newId)
                             (activeMonitors s)).
  { rewrite Hms. subst s1. cbn [activeMonitors].
    rewrite filter_app, filter_cons_False, filter_nil, app_nil_r;
      [reflexivity|]. cbn. intros H. now apply H. }
  split.
  - apply removeMonitor_reply. subst s1. cbn [activeMonitors].
    rewrite fmap_app. apply elem_of_app. right. cbn. constructor.
  - split; [exact Hfilter|]. split; [exact Halerts|].
    intros Hunused. rewrite Hfilter. now apply filter_unused.
Qed.

Lemma addMonitor_then_removeMonitor_witness :
  UnusedId (nextId steadyEnv emptyRegistry) emptyRegistry /\
  activeMonitors
    (removeMonitor (nextId steadyEnv emptyRegistry)
                   (addMonitor steadyEnv "bitcoin" emptyRegistry).2).2
  = activeMonitors emptyRegistry.
Proof.
  assert (H : UnusedId (nextId steadyEnv emptyRegistry) emptyRegistry).
  { unfold UnusedId. cbn. apply not_elem_of_nil. }
  split; [exact H|].
  apply (addMonitor_then_removeMonitor steadyEnv "bitcoin" emptyRegistry), H.
Defined.

(** X20: a monitor with an empty query, which [monitor add] without words
    creates, counts every item of every batch as a match. *)
Theorem empty_query_matches_every_item (env : Oracle)
    (getNews : string -> nat -> list NewsItem.t)
    (listMonitors : Registry -> string) (s : Registry) :
  exists monitor,
    activeMonitors (handleMonitor env getNews listMonitors ["add"] s).2
    = activeMonitors s ++ [monitor] /\
    Monitor.query monitor = EmptyString /\
    forall news, matchCount monitor news = length news.
Proof.
  replace (handleMonitor env getNews listMonitors ["add"] s)
    with (addMonitor env EmptyString s) by reflexivity.
  rewrite addMonitor_unfold. cbn [snd activeMonitors].
  eexists. split; [reflexivity|]. split; [reflexivity|].
  intros news. rewrite matchCount_countMatching. unfold countMatching.
  f_equal. induction news as [|item news IH]; [reflexivity|].
  cbn [List.filter]. unfold containsQuery at 1. cbn [Monitor.query].
  cbn [toLowerCase]. rewrite includes_empty_query. now rewrite IH.
Qed.

Lemma sum_filter_le (P : Monitor.t -> Prop) `{forall m, base.Decision (P m)}
    (ms : list Monitor.t) :
  sum_list (Monitor.alertCount <$> filter P ms)
  <= sum_list (Monitor.alertCount <$> ms).
Proof.
  induction ms as [|m ms IH]; [reflexivity|].
  destruct (decide (P m)).
  - rewrite filter_cons_True by assumption. cbn. lia.
  - rewrite filter_cons_False by assumption. cbn. lia.
Qed.

Lemma sum_app (l k : list nat) :
  sum_list (l ++ k) = sum_list l + sum_list k.
Proof. induction l as [|x l IH]; [reflexivity|]. cbn. lia. Qed.

Lemma WellKept_addMonitor (env : Oracle) (query : string) (s : Registry) :
  WellKept s -> WellKept (addMonitor env query s).2.
Proof.
  intros (Hm & Ha & Hsum). rewrite addMonitor_unfold.
  unfold WellKept. cbn [snd activeMonitors alerts].
  split; [|split; [exact Ha|]].
  - apply Forall_app. split; [exact Hm|].
    apply Forall_singleton. repeat split.
  - rewrite fmap_app, sum_app. cbn. lia.
Qed.

Lemma WellKept_removeMonitor (monitorId : string) (s : Registry) :
  WellKept s -> WellKept (removeMonitor monitorId s).2.
Proof.
  intros (Hm & Ha & Hsum).
  destruct (removeMonitor_registry monitorId s) as [Hms Halerts].
  unfold WellKept. rewrite Hms, Halerts.
  split; [|split; [exact Ha|]].
  { rewrite Forall_forall in Hm. apply Forall_forall. intros m Hin.
    apply list_elem_of_filter in Hin as [_ Hin]. now apply Hm. }
  etransitivity; [apply sum_filter_le | exact Hsum].
Qed.

Lemma filter_all {A} (l : list A) : List.filter (fun _ => true) l = l.
Proof. induction l as [|x l IH]; [reflexivity|]. cbn. now rewrite IH. Qed.

Lemma removeMonitorUndefined_unfold (s : Registry) :
  (removeMonitorUndefined s).1 = "Monitor undefined not found." /\
  activeMonitors (removeMonitorUndefined s).2 = activeMonitors s /\
  alerts (removeMonitorUndefined s).2 = alerts s.
Proof.
  unfold removeMonitorUndefined, bind, getMonitors, setMonitors, ret.
  rewrite filter_all.
  rewrite (proj2 (Nat.ltb_ge _ _) (Nat.le_refl _)). repeat split.
Qed.

Lemma checkMonitor_kept (env : Oracle) (news : list NewsItem.t)
    (m : Monitor.t) (s : Registry) :
  let r := checkMonitor env news m s in
  (r = ((m, false), s)) \/
  (r.1.2 = true /\
   Monitor.isActive r.1.1 = Monitor.isActive m /\
   Monitor.alertThreshold r.1.1 = Monitor.alertThreshold m /\
   Monitor.checkInterval r.1.1 = Monitor.checkInterval m /\
   Monitor.alertCount r.1.1 = S (Monitor.alertCount m) /\
   activeMonitors r.2 = activeMonitors s /\
   exists alert,
     alerts r.2 = alerts s ++ [alert] /\
     Alert.severity alert = medium /\
     Alert.acknowledged alert = false /\
     is_Some (Alert.monitorId alert)).
Proof.
  unfold checkMonitor, evaluateAndAlert.
  destruct (Monitor.isActive m) eqn:Eactive; cbn [negb]; [|now left].
  destruct (evaluateMonitor m news); [|now left].
  right. cbn. rewrite Eactive. repeat split.
  eexists. repeat split. now eexists.
Qed.

Lemma checkEach_kept (env : Oracle) (news : list NewsItem.t)
    (ms : list Monitor.t) (s : Registry) :
  let r := checkEach env news ms s in
  Forall2 (fun m m' =>
             Monitor.isActive m' = Monitor.isActive m /\
             Monitor.alertThreshold m' = Monitor.alertThreshold m /\
             Monitor.checkInterval m' = Monitor.checkInterval m)
          ms r.1.1 /\
  sum_list (Monitor.alertCount <$> r.1.1)
  = sum_list (Monitor.alertCount <$> ms) + r.1.2 /\
  exists raised,
    alerts r.2 = alerts s ++ raised /\
    length raised = r.1.2 /\
    Forall (fun a => Alert.severity a = medium /\
                     Alert.acknowledged a = false /\
                     is_Some (Alert.monitorId a)) raised.
Proof.
  revert s. induction ms as [|m ms IH]; intros s r; subst r.
  - cbn. split; [constructor|]. split; [reflexivity|].
    exists []. now rewrite app_nil_r.
  - rewrite checkEach_cons.
    pose proof (checkMonitor_kept env news m s) as Hm. cbv zeta in Hm.
    destruct (checkMonitor env news m s) as [[m' fired] s1].
    specialize (IH s1). cbv zeta in IH.
    destruct (checkEach env news ms s1) as [[ms' count] s2].
    cbn [fst snd] in *.
    destruct IH as (Hfields & Hsum & raised & Halerts & Hlen & Hraised).
    destruct Hm as [Hm|(-> & H1 & H2 & H3 & H4 & _ & a & Ha & Hq)].
    + injection Hm as -> -> ->.
      split; [now constructor|]. split; [cbn; lia|].
      exists raised. now repeat split.
    + split; [now constructor|]. split; [cbn; lia|].
      exists (a :: raised). rewrite Halerts, Ha, <- app_assoc.
      split; [reflexivity|]. split; [cbn; lia|]. now constructor.
Qed.

Lemma WellKept_checkMonitors (env : Oracle)
    (getNews : string -> nat -> list NewsItem.t) (s : Registry) :
  WellKept s ->
  WellKept (checkMonitors env getNews s).2 /\
  alerts s `prefix_of` alerts (checkMonitors env getNews s).2.
Proof.
  intros (Hm & Ha & Hsum). rewrite checkMonitors_unfold.
  destruct (_ =? 0); [now repeat split|].
  pose proof (checkEach_kept env (getNews "all" 100) (activeMonitors s) s)
    as H. cbv zeta in H.
  destruct (checkEach env (getNews "all" 100) (activeMonitors s) s)
    as [[ms' count] s1]. cbn [fst snd] in *.
  destruct H as (Hfields & Hcount & raised & Halerts & Hlen & Hraised).
  unfold WellKept. cbn [activeMonitors alerts]. rewrite Halerts.
  split; [split; [|split]|].
  - clear Hcount Hsum. induction Hfields as [|m m' ms ms' Hmm' _ IH].
    + constructor.
    + apply Forall_cons in Hm as [Hhead Htail].
      constructor; [|now apply IH].
      destruct Hmm' as (-> & -> & ->). exact Hhead.
  - apply Forall_app. now split.
  - rewrite length_app. lia.
  - now exists raised.
Qed.

Lemma handleMonitor_kept (env : Oracle)
    (getNews : string -> nat -> list NewsItem.t)
    (listMonitors : Registry -> string) (args : list string)
    (s : Registry) :
  WellKept s ->
  WellKept (handleMonitor env getNews listMonitors args s).2 /\
  alerts s
  `prefix_of` alerts (handleMonitor env getNews listMonitors args s).2.
Proof.
  intros Hs. unfold handleMonitor.
  destruct (String.eqb _ "add").
  { split; [now apply WellKept_addMonitor|].
    now rewrite addMonitor_unfold. }
  destruct (String.eqb _ "list"); [now split|].
  destruct (String.eqb _ "remove").
  { destruct (head (drop 1 args)) as [monitorId|].
    - split; [now apply WellKept_removeMonitor|].
      now rewrite (proj2 (removeMonitor_registry monitorId s)).
    - destruct (removeMonitorUndefined_unfold s) as (_ & Hms & Halerts).
      unfold WellKept. now rewrite Hms, Halerts. }
  destruct (String.eqb _ "check"); [now apply WellKept_checkMonitors|].
  now split.
Qed.

Lemma handleMonitors_cons (env : Oracle)
    (getNews : string -> nat -> list NewsItem.t)
    (listMonitors : Registry -> string) (args : list string)
    (rest : list (list string)) (s : Registry) :
  handleMonitors env getNews listMonitors (args :: rest) s
  = let (reply, s1) := handleMonitor env getNews listMonitors args s in
    let (replies, s2) := handleMonitors env getNews listMonitors rest s1 in
    (reply :: replies, s2).
Proof.
  cbn [handleMonitors]. unfold bind at 1.
  destruct (handleMonitor env getNews listMonitors args s) as [reply s1].
  unfold bind.
  now destruct (handleMonitors env getNews listMonitors rest s1).
Qed.

(** X21: whatever monitor commands are given, in whatever order: every monitor
    of the registry stays active with threshold 0.7 and an hourly interval
    (so the test that skips inactive monitors never skips one), every alert
    is an unacknowledged alert of medium severity that names its monitor,
    the monitors have counted no more alerts than the log holds, and the
    alert log only grows. *)
Theorem handleMonitors_keeps_registry (env : Oracle)
    (getNews : string -> nat -> list NewsItem.t)
    (listMonitors : Registry -> string) (argLists : list (list string))
    (s : Registry) :
  WellKept s ->
  let result := handleMonitors env getNews listMonitors argLists s in
  WellKept result.2 /\
  alerts s `prefix_of` alerts result.2 /\
  length result.1 = length argLists /\
  (forall news monitor s',
      monitor ∈ activeMonitors result.2 ->
      checkMonitor env news monitor s'
      = evaluateAndAlert env news monitor s').
Proof.
  intros Hs result. subst result.
  assert (H : WellKept (handleMonitors env getNews listMonitors argLists s).2
              /\ alerts s `prefix_of`
                 alerts (handleMonitors env getNews listMonitors argLists s).2
              /\ length (handleMonitors env getNews listMonitors argLists s).1
                 = length argLists).
  { revert s Hs. induction argLists as [|args rest IH]; intros s Hs.
    - cbn. split; [exact Hs|]. split; reflexivity.
    - rewrite handleMonitors_cons.
      destruct (handleMonitor_kept env getNews listMonitors args s Hs)
        as [Hs1 Hprefix].
      destruct (handleMonitor env getNews listMonitors args s)
        as [reply s1]. cbn [fst snd] in *.
      specialize (IH s1 Hs1).
      destruct (handleMonitors env getNews listMonitors rest s1)
        as [replies s2]. cbn [fst snd] in *.
      destruct IH as (Hs2 & Hprefix' & Hlen).
      split; [exact Hs2|]. split; [now transitivity (alerts s1)|].
      cbn. now rewrite Hlen. }
  destruct H as (Hkept & Hprefix & Hlen).
  split; [exact Hkept|]. split; [exact Hprefix|]. split; [exact Hlen|].
  intros news monitor s' Hin. apply checkMonitor_active.
  destruct Hkept as (Hm & _). rewrite Forall_forall in Hm.
  now destruct (Hm monitor Hin).
Qed.

Lemma WellKept_emptyRegistry : WellKept emptyRegistry.
Proof. unfold WellKept. cbn. repeat split; constructor. Qed.

Lemma handleMonitors_keeps_registry_witness :
  WellKept
    (handleMonitors steadyEnv (newsFrom tenItems) noListing
       [["add"; "bitcoin"]; ["check"]; ["remove"]; ["remove"; "k3j9x0ab"]]
       emptyRegistry).2.
Proof.
  apply (handleMonitors_keeps_registry steadyEnv (newsFrom tenItems)
           noListing _ emptyRegistry WellKept_emptyRegistry).
Defined.

End SessionFacts.

Module CommandFacts.
Import CommandHandler SituationMonitorSkill MoreExamples.

Section Handlers.

Context {Handler Reply : Type}.
Variable run : Handler -> list string -> Reply.
Variable getHelpText : t Handler -> Reply.

Lemma toLowerCase_empty (s : string) :
  toLowerCase s = EmptyString -> s = EmptyString.
Proof. now destruct s. Qed.

Lemma aliases_registerCommand (command : string) (handler : Handler)
    (aliasList : list string) (s : t Handler) (key : string) :
  aliases _ (registerCommand _ command handler aliasList s) !! key
  = if bool_decide (key ∈ toLowerCase <$> aliasList)
    then Some (toLowerCase command) else aliases _ s !! key.
Proof.
  unfold registerCommand. cbn [aliases].
  generalize (aliases _ s). induction aliasList as [|a l IH]; intros m.
  - reflexivity.
  - cbn [fold_left fmap list_fmap]. rewrite IH.
    destruct (decide (key = toLowerCase a)) as [->|Hne].
    + rewrite lookup_insert_eq.
      rewrite (bool_decide_eq_true_2 (_ ∈ _ :: _)) by constructor.
      now destruct (bool_decide _).
    + rewrite lookup_insert_ne by congruence.
      destruct (bool_decide (key ∈ toLowerCase <$> l)) eqn:E.
      * apply bool_decide_eq_true in E.
        rewrite bool_decide_eq_true_2; [reflexivity|]. now constructor.
      * apply bool_decide_eq_false in E.
        rewrite bool_decide_eq_false_2; [reflexivity|].
        rewrite not_elem_of_cons. now split.
Qed.

Lemma handleCommand_found (s : t Handler) (command : string)
    (handler : Handler) (args : list string) :
  findHandler _ s command = Some handler ->
  handleCommand _ _ run getHelpText s command args = run handler args.
Proof. unfold handleCommand. now intros ->. Qed.

Lemma handleCommand_help (s : t Handler) (command : string)
    (args : list string) :
  findHandler _ s command = None ->
  handleCommand _ _ run getHelpText s command args = getHelpText s.
Proof. unfold handleCommand. now intros ->. Qed.

(** X22: [registerCommand] then [handleCommand]: the command is found under
    any spelling that differs in letter case only, and so is each of its
    aliases unless a command of that name exists; the new count of commands
    is one more only when the name, lower-cased, was not registered. *)
Theorem registerCommand_then_handleCommand (command : string)
    (handler : Handler) (aliasList : list string) (s : t Handler)
    (typed : string) (args : list string) :
  let s' := registerCommand _ command handler aliasList s in
  (toLowerCase typed = toLowerCase command ->
   handleCommand _ _ run getHelpText s' typed args = run handler args) /\
  (toLowerCase typed ∈ toLowerCase <$> aliasList ->
   command <> EmptyString ->
   commands _ s !! toLowerCase typed = None ->
   handleCommand _ _ run getHelpText s' typed args = run handler args) /\
  getCommandCount _ s'
  = getCommandCount _ s
    + (if hasCommand _ {| commands := commands _ s; aliases := ∅ |} command
       then 0 else 1).
Proof.
  intros s'. split; [|split].
  - intros Htyped. apply handleCommand_found. unfold findHandler.
    subst s'. cbn [registerCommand commands].
    now rewrite Htyped, lookup_insert_eq.
  - intros Halias Hname Hfree. apply handleCommand_found.
    unfold findHandler.
    destruct (decide (toLowerCase typed = toLowerCase command)) as [E|E].
    { subst s'. cbn [registerCommand commands].
      now rewrite E, lookup_insert_eq. }
    assert (Hdirect : commands _ s' !! toLowerCase typed = None).
    { subst s'. cbn [registerCommand commands].
      now rewrite lookup_insert_ne by congruence. }
    rewrite Hdirect. subst s'. rewrite aliases_registerCommand.
    rewrite bool_decide_eq_true_2 by exact Halias.
    destruct (toLowerCase command) as [|c r] eqn:Ec.
    { now apply toLowerCase_empty in Ec. }
    cbn [registerCommand commands]. now rewrite Ec, lookup_insert_eq.
  - subst s'. unfold getCommandCount, hasCommand.
    cbn [registerCommand commands aliases].
    rewrite map_size_insert, lookup_empty.
    destruct (commands _ s !! toLowerCase command) as [h|].
    + rewrite (bool_decide_eq_true_2 (is_Some (Some h))) by now eexists.
      cbn. lia.
    + rewrite (bool_decide_eq_false_2 (is_Some None)) by apply is_Some_None.
      rewrite (bool_decide_eq_false_2 (is_Some None)) by apply is_Some_None.
      cbn. lia.
Qed.

(** X23: a command registered under the empty name is found under the empty
    name only: each alias given with it answers [hasCommand] with true and
    [handleCommand] with the help text, for the name the alias stands for is
    empty and counts as no name. *)
Theorem aliases_of_empty_command_give_help (handler : Handler)
    (aliasList : list string) (s : t Handler) (typed : string)
    (args : list string) :
  let s' := registerCommand _ EmptyString handler aliasList s in
  toLowerCase typed ∈ toLowerCase <$> aliasList ->
  typed <> EmptyString ->
  commands _ s !! toLowerCase typed = None ->
  hasCommand _ s' typed = true /\
  handleCommand _ _ run getHelpText s' typed args = getHelpText s'.
Proof.
  intros s' Halias Htyped Hfree.
  assert (Hne : toLowerCase typed <> EmptyString).
  { intros E. now apply toLowerCase_empty in E. }
  assert (Hdirect : commands _ s' !! toLowerCase typed = None).
  { subst s'. cbn [registerCommand commands toLowerCase].
    now rewrite lookup_insert_ne by congruence. }
  assert (Htarget : aliases _ s' !! toLowerCase typed = Some EmptyString).
  { subst s'. rewrite aliases_registerCommand.
    now rewrite bool_decide_eq_true_2 by exact Halias. }
  split.
  - unfold hasCommand. rewrite Htarget.
    rewrite (bool_decide_eq_true_2 (is_Some (Some _))) by now eexists.
    apply orb_true_r.
  - apply handleCommand_help. unfold findHandler.
    now rewrite Hdirect, Htarget.
Qed.

Lemma AliasesResolve_registerCommand (command : string) (handler : Handler)
    (aliasList : list string) (s : t Handler) :
  command <> EmptyString ->
  AliasesResolve s ->
  AliasesResolve (registerCommand _ command handler aliasList s).
Proof.
  intros Hname Hs alias target. rewrite aliases_registerCommand.
  cbn [registerCommand commands].
  destruct (bool_decide _).
  - intros [= <-]. split.
    + intros E. now apply toLowerCase_empty in E.
    + rewrite lookup_insert_eq. now eexists.
  - intros H. destruct (Hs alias target H) as [Hne Hsome]. split; [exact Hne|].
    destruct (decide (toLowerCase command = target)) as [<-|Hother].
    + rewrite lookup_insert_eq. now eexists.
    + now rewrite lookup_insert_ne.
Qed.

Lemma AliasesResolve_registerAll
    (registrations : list (string * Handler * list string))
    (s : t Handler) :
  Forall (fun r => r.1.1 <> EmptyString) registrations ->
  AliasesResolve s -> AliasesResolve (registerAll registrations s).
Proof.
  unfold registerAll. revert s.
  induction registrations as [|r rs IH]; intros s Hnames Hs; [exact Hs|].
  apply Forall_cons in Hnames as [Hr Hrs]. cbn [fold_left].
  apply IH; [exact Hrs|]. now apply AliasesResolve_registerCommand.
Qed.

Lemma AliasesResolve_empty : AliasesResolve (CommandHandler.empty Handler).
Proof. intros alias target H. cbn in H. now rewrite lookup_empty in H. Qed.

Lemma hasCommand_findHandler (s : t Handler) (typed : string) :
  AliasesResolve s ->
  hasCommand _ s typed = true <-> is_Some (findHandler _ s typed).
Proof.
  intros Hs. unfold hasCommand, findHandler.
  destruct (commands _ s !! toLowerCase typed) as [h|] eqn:Edirect.
  { rewrite (bool_decide_eq_true_2 (is_Some (Some h))) by now eexists.
    split; [now eexists | reflexivity]. }
  rewrite (bool_decide_eq_false_2 (is_Some None)) by apply is_Some_None.
  cbn [orb].
  destruct (aliases _ s !! toLowerCase typed) as [target|] eqn:Ealias.
  - destruct (Hs _ _ Ealias) as [Hne Hsome].
    rewrite (bool_decide_eq_true_2 (is_Some (Some _))) by now eexists.
    destruct target as [|c r]; [congruence|]. now split.
  - rewrite (bool_decide_eq_false_2 (is_Some None)) by apply is_Some_None.
    split; [discriminate|]. intros H. now apply is_Some_None in H.
Qed.

(** X24: when every command was registered under a name that is not empty,
    [hasCommand] tells what [handleCommand] does: where it answers true a
    handler is run, and where it answers false the help text is returned. *)
Theorem hasCommand_tells_whether_a_handler_runs
    (registrations : list (string * Handler * list string))
    (typed : string) :
  Forall (fun r => r.1.1 <> EmptyString) registrations ->
  let s := registerAll registrations (CommandHandler.empty Handler) in
  (hasCommand _ s typed = true ->
   exists handler,
     forall args,
       handleCommand _ _ run getHelpText s typed args = run handler args) /\
  (hasCommand _ s typed = false ->
   forall args,
     handleCommand _ _ run getHelpText s typed args = getHelpText s).
Proof.
  intros Hnames s.
  assert (Hs : AliasesResolve s).
  { apply AliasesResolve_registerAll; [exact Hnames|].
    apply AliasesResolve_empty. }
  pose proof (hasCommand_findHandler s typed Hs) as Hiff.
  split.
  - intros Hhas. apply Hiff in Hhas as [handler Hfound].
    exists handler. intros args. now apply handleCommand_found.
  - intros Hhas args. apply handleCommand_help.
    destruct (findHandler _ s typed) as [h|] eqn:E; [|reflexivity].
    assert (hasCommand _ s typed = true) by (apply Hiff; now eexists).
    congruence.
Qed.

End Handlers.

Lemma registerCommand_then_handleCommand_witness :
  handleCommand _ _ runNamed (fun _ => "help")
    (registerCommand _ "News" "handleNews" ["N"; "headlines"]
                     (CommandHandler.empty string))
    "HEADLINES" ["politics"; "5"]
  = "handleNews/2".
Proof.
  apply (registerCommand_then_handleCommand runNamed (fun _ => "help")
           "News" "handleNews" ["N"; "headlines"]
           (CommandHandler.empty string) "HEADLINES" ["politics"; "5"]).
  - change ("headlines" ∈ ["n"; "headlines"]). repeat constructor.
  - discriminate.
  - reflexivity.
Defined.

Lemma aliases_of_empty_command_give_help_witness :
  hasCommand _ (registerCommand _ EmptyString "handleNews" ["n"]
                                (CommandHandler.empty string)) "N"
  = true /\
  handleCommand _ _ runNamed (fun _ => "help")
    (registerCommand _ EmptyString "handleNews" ["n"]
                     (CommandHandler.empty string)) "N" []
  = "help".
Proof.
  apply (aliases_of_empty_command_give_help runNamed (fun _ => "help")
           "handleNews" ["n"] (CommandHandler.empty string) "N" []).
  - cbn. constructor.
  - discriminate.
  - reflexivity.
Defined.

Lemma hasCommand_tells_whether_a_handler_runs_witness :
  hasCommand _ (registerAll [("news", "handleNews", ["n"]);
                             ("markets", "handleMarkets", [])]
                            (CommandHandler.empty string)) "help"
  = false /\
  handleCommand _ _ runNamed (fun _ => "help")
    (registerAll [("news", "handleNews", ["n"]);
                  ("markets", "handleMarkets", [])]
                 (CommandHandler.empty string)) "help" ["me"]
  = "help".
Proof.
  split; [reflexivity|].
  apply (hasCommand_tells_whether_a_handler_runs runNamed (fun _ => "help")
           [("news", "handleNews", ["n"]); ("markets", "handleMarkets", [])]
           "help").
  - repeat constructor; discriminate.
  - reflexivity.
Defined.

End CommandFacts.

Module SkillFacts.
Import CommandHandler SituationMonitorSkill MoreExamples CommandFacts.

Lemma registerCommands_commands :
  commands _ (registerCommands (CommandHandler.empty HandlerMethod))
  = list_to_map commandTable.
Proof. vm_compute. reflexivity. Qed.

Lemma registerCommands_aliases :
  aliases _ (registerCommands (CommandHandler.empty HandlerMethod)) = ∅.
Proof. reflexivity. Qed.

Lemma commandTable_NoDup : NoDup commandTable.*1.
Proof. apply (bool_decide_unpack _). vm_compute. exact I. Qed.

(** X25: [registerCommands] on a new command handler: sixteen commands and no
    alias; a command line is served by the handler of the table whose name
    is the word typed, in lower case, and by the help text when there is no
    such name. No command is named help, so the help text is given for that
    word by the same rule. *)
Theorem registerCommands_dispatch {Reply : Type}
    (run : HandlerMethod -> list string -> Reply)
    (getHelpText : CommandHandler.t HandlerMethod -> Reply)
    (typed : string) (args : list string) :
  let s := registerCommands (CommandHandler.empty HandlerMethod) in
  getCommandCount _ s = 16 /\
  (forall handler,
      (toLowerCase typed, handler) ∈ commandTable ->
      handleCommand _ _ run getHelpText s typed args = run handler args) /\
  (toLowerCase typed ∉ commandTable.*1 ->
   handleCommand _ _ run getHelpText s typed args = getHelpText s) /\
  handleCommand _ _ run getHelpText s "help" args = getHelpText s.
Proof.
  intros s. split; [reflexivity|]. split; [|split].
  - intros handler Hin. apply handleCommand_found. unfold findHandler.
    subst s. rewrite registerCommands_commands.
    apply (elem_of_list_to_map_1 (M := gmap string)) in Hin;
      [|exact commandTable_NoDup].
    now rewrite Hin.
  - intros Hout. apply handleCommand_help. unfold findHandler.
    subst s. rewrite registerCommands_commands, registerCommands_aliases.
    apply (not_elem_of_list_to_map_1 (M := gmap string)) in Hout.
    now rewrite Hout, lookup_empty.
  - reflexivity.
Qed.

Lemma registerCommands_dispatch_witness :
  handleCommand _ _ runMethod (fun _ => None)
    (registerCommands (CommandHandler.empty HandlerMethod))
    "Monitor" ["check"]
  = Some handleMonitorCommand.
Proof.
  apply (registerCommands_dispatch runMethod (fun _ => None)
           "Monitor" ["check"]).
  change (("monitor", handleMonitorCommand) ∈ commandTable).
  unfold commandTable. repeat constructor.
Defined.

End SkillFacts.
